(** * Local RAG persona simulator: chunker, caption normalizer, vector index
      registry and retrieval assembler

    A shallow embedding of
      - [utils/text_utils.py]  ([split_into_chunks]),
      - [core/transcript.py]   ([TranscriptFetcher._parse_srt_subtitles]),
      - [core/rag.py]          ([RAGPipeline], [PersonaKnowledgeBase]),
    followed by the properties of these functions.

    Conventions.
      - A Python [str] is a list of characters; a character is a code point
        below 256 (Rocq's [ascii]), classified and lower-cased as CPython
        does on that range.
      - A Python [int] is a [Z].
      - A function that can raise returns a [result]; code that also reads or
        writes the disk runs in the state-and-exception monad [M]. *)

From Stdlib Require Import ZArith List Ascii String Lia Bool DecimalString.
From stdpp Require Import base list gmap strings.
From Equations Require Import Equations.
Import ListNotations.

Local Open Scope Z_scope.

(** ** Python values, exceptions and built-ins *)

Module Py.

Definition str := list ascii.

(** A literal, written as a Rocq string. *)
Definition lit (s : string) : str := list_ascii_of_string s.

Definition ord (c : ascii) : N := N_of_ascii c.
Definition chr (n : N) : ascii := ascii_of_N n.

Definition LF : ascii := chr 10.
Definition CR : ascii := chr 13.

(** Only subclasses of [Exception] are modelled: these are what
    [except Exception] catches. *)
Inductive exn : Type :=
| ValueError (msg : str)
| FileNotFoundError (msg : str)
| LibraryError (msg : str).

Inductive result (A : Type) : Type :=
| Ok (a : A)
| Raise (e : exn).
Arguments Ok {A} a.
Arguments Raise {A} e.

#[global] Instance result_ret : MRet result := fun A a => Ok a.
#[global] Instance result_bind : MBind result := fun A B f m =>
  match m with
  | Ok a => f a
  | Raise e => Raise e
  end.

Definition len {A : Type} (l : list A) : Z := Z.of_nat (length l).

(** [Py_UNICODE_ISSPACE]: what [str.split()] and [str.strip()] treat as
    white space. *)
Definition isspace (c : ascii) : bool :=
  let n := ord c in
  (((9 <=? n) && (n <=? 13)) || ((28 <=? n) && (n <=? 32)) || (n =? 133) || (n =? 160))%N.

(** [Py_UNICODE_ISDIGIT]: the decimal digits and the superscripts 1, 2, 3. *)
Definition isdigit_char (c : ascii) : bool :=
  let n := ord c in
  (((48 <=? n) && (n <=? 57)) || (n =? 178) || (n =? 179) || (n =? 185))%N.

(** [Py_UNICODE_TOLOWER]: A-Z and the upper-case letters of the Latin-1
    supplement (all of U+00C0..U+00DE but the multiplication sign). *)
Definition tolower (c : ascii) : ascii :=
  let n := ord c in
  if (((65 <=? n) && (n <=? 90)) || ((192 <=? n) && (n <=? 222) && negb (n =? 215)))%N
  then chr (n + 32) else c.

(** [str.lower()] *)
Definition str_lower (s : str) : str := map tolower s.

(** [str.isdigit()] *)
Definition str_isdigit (s : str) : bool :=
  match s with
  | [] => false
  | _ => forallb isdigit_char s
  end.

(** [str.lstrip()], [str.rstrip()], [str.strip()] *)
Fixpoint str_lstrip (s : str) : str :=
  match s with
  | [] => []
  | c :: s' => if isspace c then str_lstrip s' else s
  end.

Definition str_rstrip (s : str) : str := rev (str_lstrip (rev s)).

Definition str_strip (s : str) : str := str_rstrip (str_lstrip s).

(** [str.split()] with no separator: the maximal runs of characters that are
    not white space. [cur] is the run being read. *)
Fixpoint split_ws (s : str) (cur : str) : list str :=
  match s with
  | [] => match cur with [] => [] | _ => [cur] end
  | c :: s' =>
      if isspace c then
        match cur with
        | [] => split_ws s' []
        | _ => cur :: split_ws s' []
        end
      else split_ws s' (cur ++ [c])
  end.

Definition str_split (s : str) : list str := split_ws s [].

(** [sep.join(xs)] *)
Fixpoint str_join (sep : str) (xs : list str) : str :=
  match xs with
  | [] => []
  | [x] => x
  | x :: xs' => x ++ sep ++ str_join sep xs'
  end.

(** [s.startswith(p)] *)
Fixpoint startswith (p s : str) : bool :=
  match p, s with
  | [], _ => true
  | _ :: _, [] => false
  | a :: p', b :: s' => if decide (a = b) then startswith p' s' else false
  end.

Definition inspect {A : Type} (a : A) : {b : A | a = b} := exist _ a eq_refl.

(** [s.split(sep)] for the separator [c0 :: sep']: the pieces between the
    occurrences of the separator, found from the left. *)
Equations? split_on (c0 : ascii) (sep' : str) (s : str) (cur : str) : list str
  by wf (length s) lt :=
split_on c0 sep' [] cur := [cur];
split_on c0 sep' (c :: s') cur with inspect (startswith (c0 :: sep') (c :: s')) := {
  | exist _ true _ => cur :: split_on c0 sep' (drop (length sep') s') [];
  | exist _ false _ => split_on c0 sep' s' (cur ++ [c]) }.
Proof.
  all: simpl; rewrite ?length_drop; lia.
Qed.

(** [s.split(sep)]: an empty separator is a [ValueError]. *)
Definition str_split_sep (s : str) (sep : str) : result (list str) :=
  match sep with
  | [] => Raise (ValueError (lit "empty separator"))
  | c0 :: sep' => Ok (split_on c0 sep' s [])
  end.

(** [s.replace(old, new)]: every occurrence of [old], from the left. For an
    empty [old], [new] goes before every character and at the end. *)
Definition str_replace (s : str) (old new : str) : str :=
  match old with
  | [] => new ++ flat_map (fun c => c :: new) s
  | c0 :: old' => str_join new (split_on c0 old' s [])
  end.

(** A slice bound: a negative index counts from the end, and every index is
    clipped to the sequence. *)
Definition slice_index (n i : Z) : Z :=
  if i <? 0 then Z.max 0 (i + n) else Z.min i n.

(** [l[lo:hi]] *)
Definition slice {A : Type} (l : list A) (lo hi : Z) : list A :=
  let lo' := slice_index (len l) lo in
  let hi' := slice_index (len l) hi in
  take (Z.to_nat (hi' - lo')) (drop (Z.to_nat lo') l).

(** [l[lo:]] *)
Definition slice_from {A : Type} (l : list A) (lo : Z) : list A :=
  drop (Z.to_nat (slice_index (len l) lo)) l.

(** [range(start, stop, step)]: whether the loop takes another turn. *)
Definition range_continues (start stop step : Z) : bool :=
  ((0 <? step) && (start <? stop)) || ((step <? 0) && (stop <? start)).

Definition range_measure (start stop step : Z) : nat :=
  Z.to_nat (if 0 <? step then stop - start else start - stop).

Equations? range_loop (start stop step : Z) : list Z
  by wf (range_measure start stop step) lt :=
range_loop start stop step with inspect (range_continues start stop step) := {
  | exist _ true _ => start :: range_loop (start + step) stop step;
  | exist _ false _ => [] }.
Proof.
  unfold range_continues, range_measure in *.
  destruct (Z.ltb_spec 0 step); simpl in *.
  - destruct (Z.ltb_spec start stop); try discriminate; lia.
  - destruct (Z.ltb_spec step 0); simpl in *; try discriminate.
    destruct (Z.ltb_spec stop start); try discriminate; lia.
Qed.

(** [range(start, stop, step)]: a zero step is a [ValueError]. *)
Definition range (start stop step : Z) : result (list Z) :=
  if step =? 0 then Raise (ValueError (lit "range() arg 3 must not be zero"))
  else Ok (range_loop start stop step).

(** [str(n)] for an [int]. *)
Definition str_of_int (n : Z) : str := lit (NilZero.string_of_int (Z.to_int n)).

(** The truth value of a [str]: false for the empty string only. *)
Definition truthy (s : str) : bool :=
  match s with
  | [] => false
  | _ :: _ => true
  end.

(** A [for] loop whose body can raise: [acc] is what the loop updates. *)
Fixpoint for_in {A B : Type} (xs : list A) (acc : B) (body : B -> A -> result B) : result B :=
  match xs with
  | [] => Ok acc
  | x :: xs' => acc' ← body acc x; for_in xs' acc' body
  end.

(** Code with effects: a state [S] (the disk, an object's fields) is threaded
    through, and a raised exception keeps the state reached so far. *)
Definition M (S A : Type) : Type := S -> result A * S.

#[global] Instance M_ret {S : Type} : MRet (M S) := fun A a s => (Ok a, s).
#[global] Instance M_bind {S : Type} : MBind (M S) := fun A B f m s =>
  match m s with
  | (Ok a, s') => f a s'
  | (Raise e, s') => (Raise e, s')
  end.

Definition raise {S A : Type} (e : exn) : M S A := fun s => (Raise e, s).

(** [try: body  except Exception: handler] *)
Definition try_except {S A : Type} (body : M S A) (handler : exn -> M S A) : M S A :=
  fun s =>
    match body s with
    | (Ok a, s') => (Ok a, s')
    | (Raise e, s') => handler e s'
    end.

End Py.

Import Py.

(** ** utils/text_utils.py *)

Module text_utils.

(** [split_into_chunks(text, chunk_size, overlap=0)]: the two guards, then
    one chunk per turn of the [for] loop, appended to [chunks]. *)
Definition split_into_chunks (text : str) (chunk_size : Z) (overlap : Z) : result (list str) :=
  if chunk_size <=? 0 then Raise (ValueError (lit "chunk_size must be positive"))
  else if (overlap <? 0) || (overlap >=? chunk_size) then
    Raise (ValueError (lit "overlap must be non-negative and less than chunk_size"))
  else
    let words := str_split text in
    idxs ← range 0 (len words) (chunk_size - overlap);
    mret (fold_left
            (fun chunks i => chunks ++ [str_join (lit " ") (slice words i (i + chunk_size))])
            idxs []).

(** [count_words(text)] *)
Definition count_words (text : str) : Z := len (str_split text).

End text_utils.

Import text_utils.

(** ** core/transcript.py *)

Module transcript.

(** [TranscriptFetcher._parse_srt_subtitles(srt_text)]: the two nested [for]
    loops append to [lines]; the result is [lines] joined by single spaces. *)
Definition _parse_srt_subtitles (srt_text : str) : result str :=
  blocks ← str_split_sep (str_strip srt_text) [LF; LF];
  lines ← for_in blocks [] (fun lines block =>
    block_lines ← str_split_sep (str_strip block) [LF];
    mret (fold_left
            (fun lines line =>
               if truthy (str_strip line) && negb (str_isdigit (str_strip line))
               then lines ++ [str_strip line]
               else lines)
            (slice_from block_lines (if len block_lines >? 2 then 2 else 0))
            lines));
  mret (str_join (lit " ") lines).

End transcript.

Import transcript.

(** ** core/rag.py *)

Module rag.

(** The fields of [config.Settings] that [rag.py] reads. *)
Record Settings : Type := {
  embedding_model : str;
  chroma_persist_directory : str;
  chunk_size : Z;
  chunk_overlap : Z;
  retrieval_top_k : Z;
  persona_directory : str;
}.

Definition default_settings : Settings := {|
  embedding_model := lit "all-MiniLM-L6-v2";
  chroma_persist_directory := lit "data/chroma_db";
  chunk_size := 1000;
  chunk_overlap := 200;
  retrieval_top_k := 5;
  persona_directory := lit "data/personas";
|}.

(** A [pathlib.Path], as the string [str(path)] gives. *)
Definition Path : Type := str.

(** [path / name], for a relative [name]. *)
Definition path_join (p : Path) (name : str) : Path := p ++ lit "/" ++ name.

Definition get_chroma_path (s : Settings) : Path := chroma_persist_directory s.
Definition get_persona_path (s : Settings) : Path := persona_directory s.

(** A metadata value: the pipeline stores strings and chunk numbers. *)
Inductive pyval : Type :=
| PStr (s : str)
| PInt (n : Z).


(** A langchain [Document]. *)
Record Document : Type := {
  page_content : str;
  metadata : gmap str pyval;
}.

(** What chromadb, langchain, the embedding model and the file system offer
    to [rag.py]. Each operation acts on the world [W] and may raise. *)
Class Backend (W : Type) : Type := {
  client : Type;
  embedding_function : Type;
  vectorstore : Type;
  score : Type;
  (** [chromadb.PersistentClient(path=...)] *)
  PersistentClient : Path -> M W client;
  (** [client.delete_collection(name)] *)
  delete_collection : client -> str -> M W unit;
  (** [[c.name for c in client.list_collections()]] *)
  list_collections : client -> M W (list str);
  (** [SentenceTransformerEmbeddings(model_name=...)] *)
  SentenceTransformerEmbeddings : str -> M W embedding_function;
  (** [Chroma(client=..., collection_name=..., embedding_function=...)] *)
  Chroma : client -> str -> embedding_function -> M W vectorstore;
  (** [vectorstore.add_texts(texts=..., metadatas=...)] *)
  add_texts : vectorstore -> list str -> list (gmap str pyval) -> M W unit;
  (** [vectorstore.similarity_search_with_score(query=..., k=...)] *)
  similarity_search_with_score : vectorstore -> str -> Z -> M W (list (Document * score));
  (** [vectorstore._collection.count()] *)
  collection_count : vectorstore -> M W Z;
  (** [RecursiveCharacterTextSplitter(chunk_size, chunk_overlap).split_text(text)] *)
  split_text : Z -> Z -> str -> M W (list str);
  (** [path.exists()], [path.unlink()] *)
  path_exists : Path -> M W bool;
  path_unlink : Path -> M W unit;
  (** [[(item.name, item.is_dir()) for item in path.iterdir()]] *)
  path_iterdir : Path -> M W (list (str * bool));
}.

(** One entry of the list [similarity_search] returns: a dict with the keys
    "content", "metadata" and "score". *)
Record SearchResult (score : Type) : Type := {
  content : str;
  result_metadata : gmap str pyval;
  result_score : score;
}.
Arguments content {score} _.
Arguments result_metadata {score} _.
Arguments result_score {score} _.

(** What [get_collection_stats] returns. *)
Record CollectionStats : Type := {
  stats_persona : str;
  stats_collection_name : str;
  document_count : Z;
}.

(** [collection_name or f"persona_{persona_name.replace(' ', '_').lower()}"],
    in [RAGPipeline.__init__]; [None] and the empty string are false. *)
Definition RAGPipeline_collection_name (persona_name : str) (collection_name : option str) : str :=
  match collection_name with
  | Some (c :: name) => c :: name
  | _ => lit "persona_" ++ str_lower (str_replace persona_name (lit " ") (lit "_"))
  end.

(** [k or self.settings.retrieval_top_k]: [None] and 0 are false. *)
Definition k_or_default (st : Settings) (k : option Z) : Z :=
  match k with
  | Some n => if n =? 0 then retrieval_top_k st else n
  | None => retrieval_top_k st
  end.

(** The first line of [PersonaKnowledgeBase.delete_persona]. *)
Definition delete_persona_collection_name (persona_name : str) : str :=
  lit "persona_" ++ str_lower (str_replace persona_name (lit " ") (lit "_")).

(** [get_persona_path() / f"{persona_name.replace(' ', '_')}.json"], the
    metadata file [delete_persona] removes. *)
Definition persona_json_path (st : Settings) (persona_name : str) : Path :=
  path_join (get_persona_path st) (str_replace persona_name (lit " ") (lit "_") ++ lit ".json").

(** The first line of [PersonaKnowledgeBase.persona_exists]. *)
Definition persona_exists_collection_name (persona_name : str) : str :=
  lit "persona_" ++ str_lower (str_replace persona_name (lit " ") (lit "_")).

Section WithBackend.

Context {W : Type} `{B : Backend W}.

(** *** class RAGPipeline *)

Record RAGPipeline : Type := {
  settings : Settings;
  persona_name : str;
  collection_name : str;
  _vectorstore : option vectorstore;
  _embeddings : option embedding_function;
}.

(** [RAGPipeline.__init__(persona_name, collection_name=None)] *)
Definition RAGPipeline_init (st : Settings) (persona : str) (collection : option str) : RAGPipeline := {|
  settings := st;
  persona_name := persona;
  collection_name := RAGPipeline_collection_name persona collection;
  _vectorstore := None;
  _embeddings := None;
|}.

(** A method runs on the object's fields and the world. *)
Definition Method (A : Type) : Type := M (RAGPipeline * W) A.

Definition self : Method RAGPipeline := fun s => (Ok (fst s), s).

Definition set_self (p : RAGPipeline) : Method unit := fun s => (Ok tt, (p, snd s)).

(** A call into the backend from a method. *)
Definition call {A : Type} (m : M W A) : Method A :=
  fun s => let (r, w) := m (snd s) in (r, (fst s, w)).

(** The property [RAGPipeline.embeddings] *)
Definition embeddings : Method embedding_function :=
  this ← self;
  match _embeddings this with
  | Some e => mret e
  | None =>
      e ← call (SentenceTransformerEmbeddings (embedding_model (settings this)));
      set_self {| settings := settings this; persona_name := persona_name this;
                  collection_name := collection_name this;
                  _vectorstore := _vectorstore this; _embeddings := Some e |};;
      mret e
  end.

(** [RAGPipeline._create_vectorstore]: the client is made first, then the
    embeddings are looked up, then [Chroma] is built. *)
Definition _create_vectorstore : Method vectorstore :=
  this ← self;
  let persist_dir := path_join (get_chroma_path (settings this)) (collection_name this) in
  c ← call (PersistentClient persist_dir);
  e ← embeddings;
  call (Chroma c (collection_name this) e).

(** The property [RAGPipeline.vectorstore] *)
Definition get_vectorstore : Method vectorstore :=
  this ← self;
  match _vectorstore this with
  | Some v => mret v
  | None =>
      v ← _create_vectorstore;
      this' ← self;
      set_self {| settings := settings this'; persona_name := persona_name this';
                  collection_name := collection_name this';
                  _vectorstore := Some v; _embeddings := _embeddings this' |};;
      mret v
  end.

(** [RAGPipeline.add_text(text, source="manual")] *)
Definition add_text (text : str) (source : str) : Method Z :=
  this ← self;
  chunks ← call (split_text (chunk_size (settings this)) (chunk_overlap (settings this)) text);
  let metadatas :=
    map (fun i : Z =>
           <[lit "source" := PStr source]>
             (<[lit "chunk_id" := PInt i]>
                (<[lit "persona" := PStr (persona_name this)]> (∅ : gmap str pyval))))
        (range_loop 0 (len chunks) 1) in
  v ← get_vectorstore;
  call (add_texts v chunks metadatas);;
  mret (len chunks).

(** [RAGPipeline.similarity_search(query, k=None)] *)
Definition similarity_search (query : str) (k : option Z) : Method (list (SearchResult score)) :=
  this ← self;
  let k := k_or_default (settings this) k in
  v ← get_vectorstore;
  docs ← call (similarity_search_with_score v query k);
  mret (fold_left
          (fun results (d : Document * score) =>
             results ++ [{| content := page_content (fst d);
                            result_metadata := metadata (fst d);
                            result_score := snd d |}])
          docs []).





(** [RAGPipeline.get_collection_stats()] *)
Definition get_collection_stats : Method CollectionStats :=
  this ← self;
  try_except
    (v ← get_vectorstore;
     count ← call (collection_count v);
     mret {| stats_persona := persona_name this;
             stats_collection_name := collection_name this;
             document_count := count |})
    (fun _ =>
     mret {| stats_persona := persona_name this;
             stats_collection_name := collection_name this;
             document_count := 0 |}).

(** *** class PersonaKnowledgeBase *)

(** [PersonaKnowledgeBase.list_personas()] *)
Definition list_personas (st : Settings) : M W (list str) :=
  let chroma_path := get_chroma_path st in
  there ← path_exists chroma_path;
  if negb there then mret []
  else
    items ← path_iterdir chroma_path;
    mret (fold_left
            (fun personas (item : str * bool) =>
               if item.2 && startswith (lit "persona_") item.1
               then personas
                    ++ [str_replace (str_replace item.1 (lit "persona_") (lit "")) (lit "_") (lit " ")]
               else personas)
            items []).

(** The [try] suite of [delete_persona]. *)
Definition delete_persona_try (st : Settings) (persona : str) : M W bool :=
  let collection := delete_persona_collection_name persona in
  c ← PersistentClient (get_chroma_path st);
  delete_collection c collection;;
  let persona_dir := persona_json_path st persona in
  there ← path_exists persona_dir;
  (if there : bool then path_unlink persona_dir else mret tt);;
  mret true.

(** [PersonaKnowledgeBase.delete_persona(persona_name)] *)
Definition delete_persona (st : Settings) (persona : str) : M W bool :=
  try_except (delete_persona_try st persona) (fun _ => mret false).

(** [PersonaKnowledgeBase.get_persona_pipeline(persona_name)] *)
Definition get_persona_pipeline (st : Settings) (persona : str) : RAGPipeline :=
  RAGPipeline_init st persona None.

(** [PersonaKnowledgeBase.persona_exists(persona_name)] *)
Definition persona_exists (st : Settings) (persona : str) : M W bool :=
  let collection := persona_exists_collection_name persona in
  try_except
    (c ← PersistentClient (get_chroma_path st);
     collections ← list_collections c;
     mret (bool_decide (collection ∈ collections)))
    (fun _ => mret false).

End WithBackend.

End rag.

Import rag.

(** ** The disk: a backend that keeps its promises

    A world where chromadb and the file system behave as documented: one
    database per client path, collections by name inside it, documents in
    insertion order; a collection name that breaks chromadb's rule, an empty
    batch of texts and a number of results that is not positive are refused;
    while [online] is false every access to the disk raises. *)

Module disk.

Record World : Type := {
  dbs : gmap Path (gmap str (list Document));
  files : gset Path;
  online : bool;
}.

Definition empty_world : World := {| dbs := ∅; files := ∅; online := true |}.

Definition set_dbs (w : World) (d : gmap Path (gmap str (list Document))) : World :=
  {| dbs := d; files := files w; online := online w |}.

Definition set_files (w : World) (f : gset Path) : World :=
  {| dbs := dbs w; files := f; online := online w |}.

Definition unavailable : exn := LibraryError (lit "storage unavailable").

Definition no_collection (name : str) : exn :=
  ValueError (lit "Collection " ++ name ++ lit " does not exist.").

(** What chromadb raises for a collection name that breaks its rule, for an
    empty batch ([add_texts] of no text) and for [n_results <= 0] (a
    [TypeError]). *)
Definition invalid_name (name : str) : exn :=
  ValueError (lit "Expected collection name that (1) contains 3-63 characters, got " ++ name).

Definition no_texts : exn := ValueError (lit "Expected IDs to be a non-empty list, got []").

Definition bad_n_results (k : Z) : exn :=
  LibraryError (lit "TypeError: Number of requested results " ++ str_of_int k
                ++ lit ", cannot be negative, or zero.").

(** An access to the disk. *)
Definition on_disk {A : Type} (m : M World A) : M World A :=
  fun w => if online w then m w else (Raise unavailable, w).

(** The collection a vector store handle names. *)
Definition stored (w : World) (v : Path * str) : option (list Document) :=
  db ← dbs w !! v.1; db !! v.2.

Section Disk.

(** The collection names chromadb accepts (the rule depends on its
    version), the distance between a query and a stored text under the
    embedding model, and the text splitter. *)
Variable valid_name : str -> bool.
Variable distance : str -> str -> Z.
Variable splitter : Z -> Z -> str -> list str.

Definition disk_PersistentClient (p : Path) : M World Path :=
  on_disk (fun w =>
    match dbs w !! p with
    | Some _ => (Ok p, w)
    | None => (Ok p, set_dbs w (<[p := ∅]> (dbs w)))
    end).

Definition disk_delete_collection (c : Path) (name : str) : M World unit :=
  on_disk (fun w =>
    match dbs w !! c with
    | Some db =>
        match db !! name with
        | Some _ => (Ok tt, set_dbs w (<[c := delete name db]> (dbs w)))
        | None => (Raise (no_collection name), w)
        end
    | None => (Raise (no_collection name), w)
    end).

Definition disk_list_collections (c : Path) : M World (list str) :=
  on_disk (fun w =>
    match dbs w !! c with
    | Some db => (Ok (map fst (map_to_list db)), w)
    | None => (Ok [], w)
    end).

Definition disk_embeddings (model : str) : M World str := mret model.

(** [Chroma(...)] checks the name, then gets the collection, or creates it
    empty. *)
Definition disk_Chroma (c : Path) (name : str) (e : str) : M World (Path * str) :=
  on_disk (fun w =>
    if negb (valid_name name) then (Raise (invalid_name name), w)
    else
      let db := default ∅ (dbs w !! c) in
      match db !! name with
      | Some _ => (Ok (c, name), w)
      | None => (Ok (c, name), set_dbs w (<[c := <[name := []]> db]> (dbs w)))
      end).

Definition disk_add_texts (v : Path * str) (texts : list str) (metadatas : list (gmap str pyval))
  : M World unit :=
  on_disk (fun w =>
    match texts with
    | [] => (Raise no_texts, w)
    | _ :: _ =>
        match stored w v with
        | Some docs =>
            let new :=
              zip_with (fun t m => {| page_content := t; metadata := m |}) texts metadatas in
            (Ok tt,
             set_dbs w (<[v.1 := <[v.2 := docs ++ new]> (default ∅ (dbs w !! v.1))]> (dbs w)))
        | None => (Raise (no_collection v.2), w)
        end
    end).

(** Ranking: ascending distance, earlier insertions first among equals. *)
Fixpoint insert_ranked (x : Document * Z) (l : list (Document * Z)) : list (Document * Z) :=
  match l with
  | [] => [x]
  | y :: l' => if x.2 <=? y.2 then x :: l else y :: insert_ranked x l'
  end.

Definition ranked (query : str) (docs : list Document) : list (Document * Z) :=
  foldr insert_ranked [] (map (fun d => (d, distance query (page_content d))) docs).

Definition disk_similarity_search (v : Path * str) (query : str) (k : Z)
  : M World (list (Document * Z)) :=
  on_disk (fun w =>
    if k <=? 0 then (Raise (bad_n_results k), w)
    else
      match stored w v with
      | Some docs => (Ok (take (Z.to_nat k) (ranked query docs)), w)
      | None => (Raise (no_collection v.2), w)
      end).

Definition disk_count (v : Path * str) : M World Z :=
  on_disk (fun w =>
    match stored w v with
    | Some docs => (Ok (len docs), w)
    | None => (Raise (no_collection v.2), w)
    end).

Definition disk_split_text (size overlap : Z) (text : str) : M World (list str) :=
  mret (splitter size overlap text).

(** What lies under the directory [root]: the name of the entry of [root]
    that the path [p] is or is inside of. *)
Fixpoint strip_prefix (pre s : str) : option str :=
  match pre, s with
  | [], _ => Some s
  | _ :: _, [] => None
  | a :: pre', b :: s' => if decide (a = b) then strip_prefix pre' s' else None
  end.

Fixpoint first_component (rest : str) : str :=
  match rest with
  | [] => []
  | c :: rest' => if decide (c = "/"%char) then [] else c :: first_component rest'
  end.

Definition entry_of (root p : Path) : option str :=
  rest ← strip_prefix (root ++ lit "/") p;
  match rest with
  | [] => None
  | _ :: _ => Some (first_component rest)
  end.

(** The directories are those of the databases (a client creates its
    directory) and the ones above them. *)
Definition is_dir (w : World) (p : Path) : bool :=
  existsb (fun d => bool_decide (d = p) || bool_decide (is_Some (entry_of p d)))
          (elements (dom (dbs w))).

Definition disk_path_exists (p : Path) : M World bool :=
  on_disk (fun w => (Ok (bool_decide (p ∈ files w) || is_dir w p), w)).

Definition disk_path_iterdir (root : Path) : M World (list (str * bool)) :=
  on_disk (fun w =>
    let names :=
      remove_dups (omap (entry_of root) (elements (dom (dbs w)) ++ elements (files w))) in
    (Ok (map (fun n => (n, is_dir w (path_join root n))) names), w)).

Definition disk_path_unlink (p : Path) : M World unit :=
  on_disk (fun w =>
    if bool_decide (p ∈ files w) then (Ok tt, set_files w (files w ∖ {[p]}))
    else (Raise (FileNotFoundError p), w)).

Definition disk_backend : Backend World := {|
  client := Path;
  embedding_function := str;
  vectorstore := Path * str;
  score := Z;
  PersistentClient := disk_PersistentClient;
  delete_collection := disk_delete_collection;
  list_collections := disk_list_collections;
  SentenceTransformerEmbeddings := disk_embeddings;
  Chroma := disk_Chroma;
  add_texts := disk_add_texts;
  similarity_search_with_score := disk_similarity_search;
  collection_count := disk_count;
  split_text := disk_split_text;
  path_exists := disk_path_exists;
  path_unlink := disk_path_unlink;
  path_iterdir := disk_path_iterdir;
|}.

End Disk.

(** The rule of chromadb 0.4 to 0.6 for a collection name, as far as the keys
    of this program go: 3 to 63 characters, each a letter or a digit of ASCII
    or one of [. _ -], the first and the last a letter or a digit, no two
    dots in a row. (The rule also refuses an IPv4 address; a key starts with
    "persona_".) *)
Definition ascii_alnum (c : ascii) : bool :=
  let n := ord c in
  (((48 <=? n) && (n <=? 57)) || ((65 <=? n) && (n <=? 90)) || ((97 <=? n) && (n <=? 122)))%N.

Definition name_char (c : ascii) : bool :=
  ascii_alnum c || bool_decide (c ∈ lit "._-").

Fixpoint two_dots (name : str) : bool :=
  match name with
  | c :: (d :: _) as rest => (bool_decide (c = "."%char) && bool_decide (d = "."%char)) || two_dots rest
  | _ => false
  end.

Definition chroma_name_rule (name : str) : bool :=
  (3 <=? len name) && (len name <=? 63)
  && forallb name_char name
  && from_option ascii_alnum false (head name)
  && from_option ascii_alnum false (last name)
  && negb (two_dots name).

(** A splitter that keeps a non-empty text whole, and a distance that counts
    the difference in length: enough to run the pipeline on small inputs. *)
Definition whole_text (size overlap : Z) (text : str) : list str :=
  match text with
  | [] => []
  | _ :: _ => [text]
  end.

Definition length_distance (query text : str) : Z := Z.abs (len query - len text).

Definition simple_disk : Backend World :=
  disk_backend chroma_name_rule length_distance whole_text.

End disk.

Import disk.

(** ** utils/text_utils.py, the other functions *)

Module text_utils_more.

(** [re.sub(r"\s+", " ", text)]: every maximal run of white space becomes one
    space. [in_run] says that the character before was white space. *)
Fixpoint sub_whitespace_runs (text : str) (in_run : bool) : str :=
  match text with
  | [] => []
  | c :: text' =>
      if isspace c then
        if in_run then sub_whitespace_runs text' true
        else " "%char :: sub_whitespace_runs text' true
      else c :: sub_whitespace_runs text' false
  end.

(** [clean_text(text)] *)
Definition clean_text (text : str) : str :=
  let text := sub_whitespace_runs text false in
  let text := str_strip text in
  text.

(** [truncate_text(text, max_length=100, suffix="...")] *)
Definition truncate_text (text : str) (max_length : Z) (suffix : str) : str :=
  if len text <=? max_length then text
  else slice text 0 (max_length - len suffix) ++ suffix.

(** The character class of the two sanitizers: the characters
    < > : / \ | ? * and the double quote. *)
Definition filename_unsafe (c : ascii) : bool :=
  bool_decide (c ∈ lit "<>:" ++ [chr 34] ++ lit "/\|?*").

(** [re.sub] of that class by an underscore. *)
Definition sub_unsafe (text : str) : str :=
  map (fun c => if filename_unsafe c then "_"%char else c) text.

(** [re.sub(r"_{2,}", "_", text)]: a run of two or more underscores becomes
    one underscore, and a single underscore stays. *)
Fixpoint sub_underscore_runs (text : str) (in_run : bool) : str :=
  match text with
  | [] => []
  | c :: text' =>
      if decide (c = "_"%char) then
        if in_run then sub_underscore_runs text' true
        else "_"%char :: sub_underscore_runs text' true
      else c :: sub_underscore_runs text' false
  end.

(** [s.lstrip(chars)], [s.rstrip(chars)], [s.strip(chars)] *)
Fixpoint str_lstrip_chars (s chars : str) : str :=
  match s with
  | [] => []
  | c :: s' => if bool_decide (c ∈ chars) then str_lstrip_chars s' chars else s
  end.

Definition str_rstrip_chars (s chars : str) : str := rev (str_lstrip_chars (rev s) chars).

Definition str_strip_chars (s chars : str) : str :=
  str_rstrip_chars (str_lstrip_chars s chars) chars.

(** [sanitize_for_filename(text)] *)
Definition sanitize_for_filename (text : str) : str :=
  let sanitized := sub_unsafe text in
  let sanitized := sub_underscore_runs sanitized false in
  str_strip_chars sanitized (lit "_").

(** [format_duration(seconds)]; [//] and [%] round towards minus infinity,
    as [Z.div] and [Z.modulo] do for a positive divisor. *)
Definition format_duration (seconds : Z) : str :=
  let hours := seconds / 3600 in
  let minutes := (seconds mod 3600) / 60 in
  let secs := seconds mod 60 in
  if hours >? 0 then
    str_of_int hours ++ lit "h " ++ str_of_int minutes ++ lit "m " ++ str_of_int secs ++ lit "s"
  else if minutes >? 0 then
    str_of_int minutes ++ lit "m " ++ str_of_int secs ++ lit "s"
  else str_of_int secs ++ lit "s".

End text_utils_more.

Import text_utils_more.

(** ** core/transcript.py, the other parsers *)

Module transcript_more.

(** [TranscriptFetcher._sanitize_filename(title)] *)
Definition _sanitize_filename (title : str) : str :=
  let sanitized := sub_unsafe title in
  let sanitized := slice sanitized 0 100 in
  sanitized.

End transcript_more.

Import transcript_more.

(** ** core/transcript.py, the JSON3 parser *)

Module transcript_json.

(** What [json.loads] returns. A float is kept by its truth value, the one
    thing the parser asks of it; a dict lists each key once. *)
Inductive json : Type :=
| JNull
| JBool (b : bool)
| JInt (n : Z)
| JFloat (nonzero : bool)
| JStr (s : str)
| JList (items : list json)
| JDict (items : list (str * json)).

(** The built-in errors the parser can meet; [except Exception] catches
    them by what they are, not by their name. *)
Definition TypeError (msg : str) : exn := LibraryError (lit "TypeError: " ++ msg).
Definition AttributeError (msg : str) : exn := LibraryError (lit "AttributeError: " ++ msg).

(** [isinstance(v, dict)] and [v.get(key, default)] on a dict. *)
Fixpoint dict_get (items : list (str * json)) (key : str) (default : json) : json :=
  match items with
  | [] => default
  | (k, v) :: items' => if decide (k = key) then v else dict_get items' key default
  end.

(** The truth value of [v], as [if v:] reads it. *)
Definition json_truthy (v : json) : bool :=
  match v with
  | JNull => false
  | JBool b => b
  | JInt n => negb (n =? 0)
  | JFloat nonzero => nonzero
  | JStr s => truthy s
  | JList items => match items with [] => false | _ => true end
  | JDict items => match items with [] => false | _ => true end
  end.

(** What [for x in v] goes through: the items of a list, the characters of
    a string, the keys of a dict; nothing else can be iterated. *)
Definition json_iter (v : json) : result (list json) :=
  match v with
  | JList items => Ok items
  | JStr s => Ok (map (fun c => JStr [c]) s)
  | JDict items => Ok (map (fun kv => JStr kv.1) items)
  | _ => Raise (TypeError (lit "object is not iterable"))
  end.

(** [v.strip()]: only a string has it. *)
Definition json_strip (v : json) : result str :=
  match v with
  | JStr s => Ok (str_strip s)
  | _ => Raise (AttributeError (lit "object has no attribute strip"))
  end.

(** [try: body  except Exception: handler], for code with no state. *)
Definition try_result {A : Type} (body : result A) (handler : exn -> result A) : result A :=
  match body with
  | Ok a => Ok a
  | Raise e => handler e
  end.

Section Json3.

(** [json.loads], which raises on a text that is not JSON. *)
Variable json_loads : str -> result json.

(** [TranscriptFetcher._parse_json3_subtitles(json3_text)] *)
Definition _parse_json3_subtitles (json3_text : str) : result str :=
  try_result
    (data ← json_loads json3_text;
     lines ←
       match data with
       | JList items =>
           for_in items [] (fun lines item =>
             match item with
             | JDict fields =>
                 let segs := dict_get fields (lit "segs") (JList []) in
                 segs ← json_iter segs;
                 for_in segs lines (fun lines seg =>
                   match seg with
                   | JDict fields =>
                       let text := dict_get fields (lit "text") (JStr []) in
                       if json_truthy text then
                         stripped ← json_strip text;
                         mret (lines ++ [stripped])
                       else mret lines
                   | _ => mret lines
                   end)
             | _ => mret lines
             end)
       | _ => mret []
       end;
     mret (str_join (lit " ") lines))
    (fun _ => mret []).

End Json3.

End transcript_json.

Import transcript_json.

(** ** core/chatbot.py, the path of the persona file *)

Module chatbot.

(** [PersonaChatbot._get_persona_path()] *)
Definition _get_persona_path (st : Settings) (persona_name : str) : Path :=
  let safe_name := str_replace persona_name (lit " ") (lit "_") in
  path_join (get_persona_path st) (safe_name ++ lit ".json").

End chatbot.

(** ** core/rag.py: the rest of [RAGPipeline] *)

Module rag_more.

Section WithStorage.

Context {W : Type} `{B : Backend W}.

(** [vectorstore._client], [path.read_text(encoding="utf-8")] and
    [path.stem]; a transcript path is the [Path] that [Path(transcript_path)]
    gives. *)
Variable store_client : vectorstore -> client.
Variable read_text : Path -> M W str.
Variable stem : Path -> str.

(** [source_name or transcript_path.stem]: [None] and the empty string are
    false. *)
Definition source_or_stem (transcript_path : Path) (source_name : option str) : str :=
  match source_name with
  | Some (c :: name) => c :: name
  | _ => stem transcript_path
  end.

(** [RAGPipeline.add_transcript(transcript_path, source_name=None)] *)
Definition add_transcript (transcript_path : Path) (source_name : option str) : Method Z :=
  there ← call (path_exists transcript_path);
  if negb there
  then raise (FileNotFoundError (lit "Transcript file not found: " ++ transcript_path))
  else
    text ← call (read_text transcript_path);
    let source := source_or_stem transcript_path source_name in
    this ← self;
    chunks ← call (split_text (chunk_size (settings this)) (chunk_overlap (settings this)) text);
    let metadatas :=
      map (fun i : Z =>
             <[lit "source" := PStr source]>
               (<[lit "chunk_id" := PInt i]>
                  (<[lit "persona" := PStr (persona_name this)]> (∅ : gmap str pyval))))
          (range_loop 0 (len chunks) 1) in
    v ← get_vectorstore;
    call (add_texts v chunks metadatas);;
    mret (len chunks).

(** [RAGPipeline.reset()] *)
Definition reset : Method unit :=
  this ← self;
  match _vectorstore this with
  | Some v =>
      call (delete_collection (store_client v) (collection_name this));;
      this' ← self;
      set_self {| settings := settings this'; persona_name := persona_name this';
                  collection_name := collection_name this';
                  _vectorstore := None; _embeddings := _embeddings this' |}
  | None => mret tt
  end.

End WithStorage.

End rag_more.

Import rag_more.

(** ** Vocabulary of the properties *)

Definition ceil_div (n d : Z) : Z := (n + d - 1) / d.
Definition is_token (t : str) : Prop := t ≠ [] ∧ Forall (fun c => isspace c = false) t.
Definition shares_exactly (k : nat) (a b : list str) : Prop :=
  (k <= length a)%nat ∧ (k <= length b)%nat ∧ drop (length a - k) a = take k b.

(** The window of chunk [j]: [w] elements from offset [j * s]. *)
Definition window {A : Type} (l : list A) (w s : nat) (j : nat) : list A :=
  take w (drop (j * s) l).
(** C2 as the specification words it: every chunk has at most [w] tokens,
    and two consecutive chunks share exactly [o] tokens unless the later one
    is the final chunk. *)
Definition overlap_as_stated (text : str) (w o : Z) : Prop :=
  ∀ chunks : list str,
    split_into_chunks text w o = Ok chunks →
    (∀ c, c ∈ chunks → len (str_split c) <= w)
    ∧ (∀ (j : nat) (a b : str),
         chunks !! j = Some a → chunks !! S j = Some b →
         (S (S j) < length chunks)%nat →
         shares_exactly (Z.to_nat o) (str_split a) (str_split b)).

(** The caption normalizer, read as a pipeline. The blocks of a payload: the
    trimmed payload, cut at every blank line. *)
Definition srt_blocks (srt_text : str) : list str :=
  split_on LF [LF] (str_strip srt_text) [].

(** The lines of a block that are read: all of them when the trimmed block
    has one or two lines, and all but the first two otherwise. *)
Definition srt_block_lines (block : str) : list str :=
  let block_lines := split_on LF [] (str_strip block) [] in
  if (2 <? length block_lines)%nat then drop 2 block_lines else block_lines.

(** A line that is purely numeric once trimmed. *)
Definition srt_numeric (line : str) : bool := str_isdigit (str_strip line).

(** A line that is empty once trimmed. *)
Definition srt_blank (line : str) : bool := negb (truthy (str_strip line)).

(** What the code computes: blank and numeric lines are dropped. *)
Definition srt_normalized (srt_text : str) : str :=
  str_join (lit " ")
    (flat_map
       (fun block =>
          map str_strip
              (List.filter (fun line => negb (srt_blank line) && negb (srt_numeric line))
                           (srt_block_lines block)))
       (srt_blocks srt_text)).

(** C9 as the specification words it: only the numeric lines are dropped. *)
Definition srt_as_stated (srt_text : str) : str :=
  str_join (lit " ")
    (flat_map
       (fun block =>
          map str_strip
              (List.filter (fun line => negb (srt_numeric line)) (srt_block_lines block)))
       (srt_blocks srt_text)).

(** The payload of the specification's example. *)
Definition srt_example : str :=
  str_join [LF]
    [lit "1"; lit "00:00:00,000 --> 00:00:01,000"; lit "Hello there"; lit "";
     lit "2"; lit "00:00:01,000 --> 00:00:02,000"; lit "General Kenobi"].

(** A block whose caption has a line that holds one space. *)
Definition srt_spaced : str :=
  str_join [LF]
    [lit "1"; lit "00:00:00,000 --> 00:00:01,000"; lit "Hello there"; lit " ";
     lit "General Kenobi"].

(** C5 as the specification words it: trim, lowercase, spaces to
    underscores. *)
Definition collection_key_as_stated (persona : str) : str :=
  lit "persona_" ++ str_replace (str_lower (str_strip persona)) (lit " ") (lit "_").

(** [c] with every space turned into an underscore. *)
Definition underscore (c : ascii) : ascii :=
  if decide (c = " "%char) then "_"%char else c.

(** C7 as the specification words it, for [search]: whatever the storage
    does, the call returns a list. *)
Definition search_never_raises : Prop :=
  ∀ (W : Type) (B : Backend W) (p : RAGPipeline) (w : W) (query : str) (k : option Z),
    ∃ results s', similarity_search query k (p, w) = (Ok results, s').


(** A world where the disk cannot be reached. *)
Definition offline_world : World := {| dbs := ∅; files := ∅; online := false |}.

(** The pipeline of "Alice" as [get_persona_pipeline] makes it, and the
    outcome of adding her first text through it on an empty disk. *)
Definition alice : RAGPipeline (B := simple_disk) :=
  RAGPipeline_init default_settings (lit "Alice") None.

Definition after_add : result Z * (RAGPipeline (B := simple_disk) * World) :=
  add_text (B := simple_disk) (lit "hello world") (lit "manual") (alice, empty_world).


(** A name with no underscore next to another. *)
Definition no_underscore_run (s : str) : Prop :=
  ∀ i : nat, s !! i = Some "_"%char → s !! S i ≠ Some "_"%char.

(** A name [sanitize_for_filename] has nothing to do on: no unsafe
    character, no run of underscores, no underscore at either end. *)
Definition filename_clean (s : str) : Prop :=
  Forall (fun c => filename_unsafe c = false) s
  ∧ no_underscore_run s
  ∧ head s ≠ Some "_"%char
  ∧ last s ≠ Some "_"%char.

(** A caption event of the JSON3 payload: a dict whose "segs" are dicts
    with a "text". *)
Definition json3_event (texts : list str) : json :=
  JDict [(lit "segs", JList (map (fun t => JDict [(lit "text", JStr t)]) texts))].

(** The metadata [add_text] gives the chunk numbered [i]. *)
Definition chunk_metadata (source persona : str) (i : Z) : gmap str pyval :=
  <[lit "source" := PStr source]>
    (<[lit "chunk_id" := PInt i]> (<[lit "persona" := PStr persona]> (∅ : gmap str pyval))).

(** The documents [add_text] stores for its chunks. *)
Definition chunk_documents (source persona : str) (chunks : list str) : list Document :=
  imap (fun i text => {| page_content := text;
                         metadata := chunk_metadata source persona (Z.of_nat i) |})
       chunks.

(** Where the pipeline of a persona keeps its collection: the database it
    opens, and the name of the collection in it. *)
Definition pipeline_store (st : Settings) (persona : str) : Path * str :=
  (path_join (get_chroma_path st) (RAGPipeline_collection_name persona None),
   RAGPipeline_collection_name persona None).

(** Where the registry looks for the collection of a persona. *)
Definition registry_store (st : Settings) (persona : str) : Path * str :=
  (get_chroma_path st, persona_exists_collection_name persona).

(** A pipeline that has opened its store on the disk. *)
Definition opened (valid_name : str -> bool) (distance : str -> str -> Z)
    (splitter : Z -> Z -> str -> list str) (st : Settings) (persona : str)
  : RAGPipeline (B := disk_backend valid_name distance splitter) :=
  @Build_RAGPipeline World (disk_backend valid_name distance splitter) st persona
    (RAGPipeline_collection_name persona None)
    (Some (pipeline_store st persona))
    (Some (embedding_model st)).

(** A disk with a collection for "alice" where the registry looks, her
    metadata file, and the database of a pipeline for "my notes". *)
Definition shelf : World := {|
  dbs := <[lit "data/chroma_db" := <[lit "persona_alice" := []]> ∅]>
           (<[lit "data/chroma_db/persona_my_notes" := <[lit "persona_my_notes" := []]> ∅]> ∅);
  files := {[ lit "data/personas/alice.json" ]};
  online := true;
|}.

(** The name [list_personas] shows for a directory of the storage root. *)
Definition listed_as (directory : str) : str :=
  str_replace (str_replace directory (lit "persona_") (lit "")) (lit "_") (lit " ").

(** * Properties *)
Section Lists.

Context {A B : Type}.

Lemma fold_left_snoc_map (f : A -> B) (l : list A) (acc : list B) :
  fold_left (fun acc x => acc ++ [f x]) l acc = acc ++ map f l.
Proof.
  revert acc. induction l as [|x l IH]; intros acc; simpl.
  - by rewrite app_nil_r.
  - rewrite IH, <- app_assoc. reflexivity.
Qed.

Lemma fold_left_filter_map (keep : A -> bool) (f : A -> B) (l : list A) (acc : list B) :
  fold_left (fun acc x => if keep x then acc ++ [f x] else acc) l acc
  = acc ++ map f (List.filter keep l).
Proof.
  revert acc. induction l as [|x l IH]; intros acc; simpl.
  - by rewrite app_nil_r.
  - rewrite IH. destruct (keep x); simpl; [by rewrite <- app_assoc | done].
Qed.

(** Cutting [l] every [s] elements loses nothing. *)
Lemma concat_strides (s c : nat) (l : list A) :
  (0 < s)%nat -> (length l <= c * s)%nat ->
  concat (map (fun j => take s (drop (j * s) l)) (seq 0 c)) = l.
Proof.
  intros Hs. revert l. induction c as [|c IH]; intros l Hl.
  - destruct l; [done | simpl in Hl; lia].
  - simpl seq. rewrite <- seq_shift. simpl. rewrite map_map.
    rewrite drop_0. transitivity (take s l ++ drop s l); [| apply take_drop]. f_equal.
    rewrite <- (IH (drop s l)) at 1 by (rewrite length_drop; lia).
    f_equal. apply map_ext. intros j. by rewrite drop_drop.
Qed.

Lemma slice_window (l : list A) (i w : Z) :
  0 <= i -> 0 <= w ->
  slice l i (i + w) = take (Z.to_nat w) (drop (Z.to_nat i) l).
Proof.
  intros Hi Hw. unfold slice, slice_index, len.
  destruct (Z.ltb_spec i 0); [lia|]. destruct (Z.ltb_spec (i + w) 0); [lia|].
  destruct (Z.le_gt_cases i (Z.of_nat (length l))) as [Hin|Hout].
  - rewrite (Z.min_l i) by lia.
    destruct (Z.le_gt_cases (i + w) (Z.of_nat (length l))).
    + rewrite Z.min_l by lia. do 2 f_equal. lia.
    + rewrite Z.min_r by lia.
      rewrite !take_ge; [done | |]; rewrite length_drop; lia.
  - rewrite !Z.min_r by lia. rewrite Z.sub_diag. simpl.
    rewrite (drop_ge l (Z.to_nat i)) by lia. by rewrite take_nil.
Qed.

End Lists.

(** ** [range] *)

Lemma range_loop_unfold (start stop step : Z) :
  range_loop start stop step =
  if range_continues start stop step then start :: range_loop (start + step) stop step else [].
Proof.
  funelim (range_loop start stop step);
    match goal with E : range_continues _ _ _ = _ |- _ => by rewrite E end.
Qed.

Lemma ceil_div_spec (n d : Z) :
  0 < d -> (ceil_div n d - 1) * d < n <= ceil_div n d * d.
Proof.
  intros Hd. unfold ceil_div.
  pose proof (Z.div_mod (n + d - 1) d ltac:(lia)) as E.
  pose proof (Z.mod_pos_bound (n + d - 1) d Hd). nia.
Qed.

Lemma ceil_div_step (n d : Z) : 0 < d -> ceil_div (n - d) d = ceil_div n d - 1.
Proof.
  intros Hd. unfold ceil_div.
  replace (n - d + d - 1) with (n + d - 1 + (-1) * d) by lia.
  rewrite Z.div_add by lia. lia.
Qed.

Lemma ceil_div_pos (n d : Z) : 0 < d -> (0 < ceil_div n d <-> 0 < n).
Proof. intros Hd. pose proof (ceil_div_spec n d Hd). nia. Qed.

(** With a positive step the loop visits [start], [start + step], ... while
    below [stop]: [ceil ((stop - start) / step)] turns. *)
Lemma range_loop_up (start stop step : Z) :
  0 < step ->
  range_loop start stop step
  = map (fun j : nat => start + Z.of_nat j * step)
        (seq 0 (Z.to_nat (ceil_div (stop - start) step))).
Proof.
  intros Hstep.
  remember (Z.to_nat (ceil_div (stop - start) step)) as k eqn:Hk.
  revert start Hk. induction k as [|k IH]; intros start Hk.
  - rewrite range_loop_unfold. unfold range_continues.
    pose proof (ceil_div_pos (stop - start) step Hstep).
    destruct (Z.ltb_spec 0 step); [|lia].
    destruct (Z.ltb_spec start stop); [lia|].
    destruct (Z.ltb_spec step 0); [lia|]. reflexivity.
  - rewrite range_loop_unfold. unfold range_continues.
    pose proof (ceil_div_pos (stop - start) step Hstep).
    destruct (Z.ltb_spec 0 step); [|lia].
    destruct (Z.ltb_spec start stop); [|lia]. simpl andb. cbv iota.
    simpl seq. rewrite <- seq_shift. simpl map. rewrite map_map. f_equal; [lia|].
    rewrite (IH (start + step)).
    + apply map_ext. intros j. lia.
    + replace (stop - (start + step)) with (stop - start - step) by lia.
      rewrite ceil_div_step by lia. lia.
Qed.

(** ** [str.split()] and [" ".join] *)

Lemma isspace_space : isspace " "%char = true.
Proof. reflexivity. Qed.

Lemma split_ws_run (t rest cur : str) :
  Forall (fun c => isspace c = false) t ->
  split_ws (t ++ rest) cur = split_ws rest (cur ++ t).
Proof.
  intros Ht. revert cur. induction Ht as [|c t Hc Ht IH]; intros cur; simpl.
  - by rewrite app_nil_r.
  - rewrite Hc, IH, <- app_assoc. reflexivity.
Qed.

Lemma split_ws_space (rest cur : str) :
  cur ≠ [] -> split_ws (" "%char :: rest) cur = cur :: split_ws rest [].
Proof. intros Hcur. destruct cur; [done | reflexivity]. Qed.

(** Splitting yields tokens. *)
Lemma split_ws_tokens (s cur : str) :
  Forall (fun c => isspace c = false) cur ->
  Forall is_token (split_ws s cur).
Proof.
  revert cur. induction s as [|c s IH]; intros cur Hcur; simpl.
  - destruct cur; constructor; [|constructor]. split; [done | assumption].
  - destruct (isspace c) eqn:Hc.
    + destruct cur; [apply IH; constructor|].
      constructor; [split; [done | assumption] | apply IH; constructor].
    + apply IH. apply Forall_app. split; [assumption | by repeat constructor].
Qed.

Lemma str_split_tokens (s : str) : Forall is_token (str_split s).
Proof. apply split_ws_tokens. constructor. Qed.

(** Joining tokens by single spaces and splitting again gives them back. *)
Lemma str_split_join (ts : list str) :
  Forall is_token ts -> str_split (str_join (lit " ") ts) = ts.
Proof.
  unfold str_split. induction 1 as [|t ts [Hne Ht] Hts IH]; [reflexivity|].
  destruct ts as [|t' ts].
  - simpl. rewrite <- (app_nil_r t) at 1. rewrite split_ws_run by assumption.
    simpl. destruct t; [done | reflexivity].
  - change (str_join (lit " ") (t :: t' :: ts))
      with (t ++ " "%char :: str_join (lit " ") (t' :: ts)).
    rewrite split_ws_run by assumption. simpl app.
    rewrite split_ws_space by assumption. by rewrite IH.
Qed.

Lemma Forall_take_drop {A : Type} (P : A -> Prop) (l : list A) (n m : nat) :
  Forall P l -> Forall P (take n (drop m l)).
Proof. intros H. by apply Forall_take, Forall_drop. Qed.

(** ** [split_into_chunks] *)

Lemma split_into_chunks_closed (text : str) (w o : Z) :
  0 < w -> 0 <= o < w ->
  split_into_chunks text w o
  = Ok (map (fun j : nat =>
               str_join (lit " ") (window (str_split text) (Z.to_nat w) (Z.to_nat (w - o)) j))
            (seq 0 (Z.to_nat (ceil_div (len (str_split text)) (w - o))))).
Proof.
  intros Hw Ho. unfold split_into_chunks, range.
  rewrite (proj2 (Z.leb_gt w 0)) by lia.
  rewrite (proj2 (Z.ltb_ge o 0)) by lia.
  rewrite Z.geb_leb, (proj2 (Z.leb_gt w o)) by lia. simpl orb. cbv iota.
  rewrite (proj2 (Z.eqb_neq (w - o) 0)) by lia. simpl. f_equal.
  rewrite fold_left_snoc_map. simpl app.
  rewrite range_loop_up by lia. rewrite map_map, Z.sub_0_r.
  apply map_ext. intros j. f_equal. unfold window.
  rewrite slice_window by nia. do 2 f_equal. nia.
Qed.

Lemma window_tokens (words : list str) (w s j : nat) :
  Forall is_token words ->
  str_split (str_join (lit " ") (window words w s j)) = window words w s j.
Proof. intros H. by apply str_split_join, Forall_take_drop. Qed.

Lemma chunk_lookup (text : str) (w o : Z) (chunks : list str) (j : nat) (c : str) :
  0 < w -> 0 <= o < w ->
  split_into_chunks text w o = Ok chunks ->
  chunks !! j = Some c ->
  c = str_join (lit " ") (window (str_split text) (Z.to_nat w) (Z.to_nat (w - o)) j)
  ∧ (j < Z.to_nat (ceil_div (len (str_split text)) (w - o)))%nat.
Proof.
  intros Hw Ho Hrun Hj. rewrite split_into_chunks_closed in Hrun by assumption.
  injection Hrun as <-. rewrite list_lookup_fmap in Hj.
  destruct (seq 0 _ !! j) as [i|] eqn:Hi; [|discriminate].
  apply lookup_seq in Hi as [-> Hlt]. simpl in Hj. injection Hj as <-. done.
Qed.

Lemma split_into_chunks_count (text : str) (w o : Z) :
  0 < w -> 0 <= o < w ->
  ∃ chunks : list str,
    split_into_chunks text w o = Ok chunks
    ∧ len chunks = ceil_div (len (str_split text)) (w - o).
Proof.
  intros Hw Ho. eexists. split; [by apply split_into_chunks_closed|].
  unfold len at 1. rewrite length_map, length_seq.
  pose proof (ceil_div_spec (len (str_split text)) (w - o) ltac:(lia)).
  assert (0 <= len (str_split text)) by (unfold len; lia). nia.
Qed.

Section Windows.

Context {A : Type} (l : list A) (w s : nat).

Lemma window_length (j : nat) : length (window l w s j) = (w `min` (length l - j * s))%nat.
Proof. unfold window. by rewrite length_take, length_drop. Qed.

(** What chunk [j] has beyond its first [s] elements is how chunk [j+1]
    begins. *)
Lemma window_next (j : nat) :
  (s <= w)%nat ->
  drop s (window l w s j) = take (length (window l w s j) - s) (window l w s (S j)).
Proof.
  intros Hsw. rewrite window_length. unfold window.
  rewrite skipn_firstn_comm, drop_drop, take_take.
  replace (S j * s)%nat with (j * s + s)%nat by lia.
  destruct (Nat.le_gt_cases w (length l - j * s)).
  - f_equal. lia.
  - rewrite !take_ge; [done | |]; rewrite length_drop; lia.
Qed.

(** The first [s] elements of the windows, one after the other, are [l]. *)
Lemma window_strides (c : nat) :
  (0 < s <= w)%nat -> (length l <= c * s)%nat ->
  concat (map (fun j => take s (window l w s j)) (seq 0 c)) = l.
Proof.
  intros Hs Hc.
  transitivity (concat (map (fun j => take s (drop (j * s) l)) (seq 0 c)));
    [| apply concat_strides; lia].
  f_equal. apply map_ext. intros j. unfold window.
  rewrite take_take. f_equal. lia.
Qed.

(** The first window, then every later window without its first [w - s]
    elements, are [l] as well. *)
Lemma window_tails (c : nat) :
  (0 < s <= w)%nat -> (length l <= S c * s)%nat ->
  window l w s 0 ++ concat (map (fun j => drop (w - s) (window l w s (S j))) (seq 0 c)) = l.
Proof.
  intros Hs Hc. unfold window. simpl. rewrite drop_0.
  transitivity (take w l ++ drop w l); [| apply take_drop]. f_equal.
  rewrite <- (concat_strides s c (drop w l)) by (rewrite ?length_drop; lia).
  f_equal. apply map_ext. intros j.
  rewrite skipn_firstn_comm, !drop_drop. f_equal; [lia | f_equal; lia].
Qed.

End Windows.

(** C1. For window_size > 0 and 0 <= overlap < window_size,
    split_into_chunks returns one chunk per offset i = 0, step, 2*step, ...
    below len(tokens), where step = window_size - overlap; chunk j is the
    tokens [j*step, j*step + window_size) of the text joined by single
    spaces; there are exactly ceil(len(tokens) / step) chunks, and none for an
    empty text. *)
Theorem split_into_chunks_windows (text : str) (window_size overlap : Z) :
  0 < window_size -> 0 <= overlap < window_size ->
  ∃ chunks : list str,
    split_into_chunks text window_size overlap = Ok chunks
    ∧ len chunks = ceil_div (len (str_split text)) (window_size - overlap)
    ∧ (len chunks - 1) * (window_size - overlap) < len (str_split text)
        <= len chunks * (window_size - overlap)
    ∧ (∀ j : nat, (j < length chunks)%nat →
         chunks !! j
         = Some (str_join (lit " ")
                   (slice (str_split text)
                      (Z.of_nat j * (window_size - overlap))
                      (Z.of_nat j * (window_size - overlap) + window_size)))
         ∧ Z.of_nat j * (window_size - overlap) < len (str_split text))
    ∧ (text = [] → chunks = []).
Proof.
  intros Hw Ho. eexists. split; [by apply split_into_chunks_closed|].
  set (n := len (str_split text)). set (step := window_size - overlap).
  assert (Hstep : 0 < step) by (unfold step; lia).
  assert (Hn : 0 <= n) by (unfold n, len; lia).
  pose proof (ceil_div_spec n step Hstep) as Hceil.
  assert (Hlen : ∀ f : nat -> str,
            len (map f (seq 0 (Z.to_nat (ceil_div n step)))) = ceil_div n step).
  { intros f. unfold len. rewrite length_map, length_seq. nia. }
  rewrite !Hlen. split; [done|]. split; [done|]. split.
  - intros j Hj. rewrite length_map, length_seq in Hj.
    rewrite list_lookup_fmap, lookup_seq_lt by done. simpl. split; [|nia].
    do 2 f_equal. unfold window. rewrite slice_window by nia.
    do 2 f_equal. fold step. nia.
  - intros ->. assert (Hn0 : n = 0) by reflexivity.
    assert (ceil_div n step = 0) as -> by nia.
    reflexivity.
Qed.

Lemma split_into_chunks_windows_witness :
  0 < 3 ∧ 0 <= 1 < 3 ∧
  ∃ chunks : list str,
    split_into_chunks (lit "a b c d e") 3 1 = Ok chunks
    ∧ len chunks = ceil_div (len (str_split (lit "a b c d e"))) (3 - 1)
    ∧ (len chunks - 1) * (3 - 1) < len (str_split (lit "a b c d e")) <= len chunks * (3 - 1)
    ∧ (∀ j : nat, (j < length chunks)%nat →
         chunks !! j
         = Some (str_join (lit " ")
                   (slice (str_split (lit "a b c d e"))
                      (Z.of_nat j * (3 - 1)) (Z.of_nat j * (3 - 1) + 3)))
         ∧ Z.of_nat j * (3 - 1) < len (str_split (lit "a b c d e")))
    ∧ (lit "a b c d e" = [] → chunks = []).
Proof.
  split; [lia|]. split; [lia|].
  apply (split_into_chunks_windows (lit "a b c d e") 3 1); lia.
Defined.

(** C2, as stated, fails when the overlap exceeds the step: with window 5 and
    overlap 4 the text "a b c d e f" gives the chunks "a b c d e",
    "b c d e f", "c d e f", "d e f", "e f", "f"; the third and the fourth are
    not final, and the fourth has only three tokens to share. *)
Lemma overlap_as_stated_fails : ¬ overlap_as_stated (lit "a b c d e f") 5 4.
Proof.
  intros H.
  destruct (H [lit "a b c d e"; lit "b c d e f"; lit "c d e f"; lit "d e f"; lit "e f"; lit "f"]
              eq_refl) as [_ Hshare].
  destruct (Hshare 2%nat (lit "c d e f") (lit "d e f") eq_refl eq_refl) as (_ & Hb & _).
  - simpl. lia.
  - vm_compute in Hb. lia.
Qed.

(** C2, amended. Every chunk has at most window_size tokens. For two
    consecutive chunks, the later one begins with the tokens the earlier one
    has beyond its first step tokens; so the two share exactly overlap tokens
    whenever the earlier chunk is full (window_size tokens). When
    2 * overlap <= window_size that covers every pair whose later chunk is not
    the final one. *)
Theorem chunks_bounded_and_overlapping (text : str) (window_size overlap : Z) :
  0 < window_size -> 0 <= overlap < window_size ->
  ∃ chunks : list str,
    split_into_chunks text window_size overlap = Ok chunks
    ∧ (∀ c, c ∈ chunks → len (str_split c) <= window_size)
    ∧ (∀ (j : nat) (a b : str),
         chunks !! j = Some a → chunks !! S j = Some b →
         drop (Z.to_nat (window_size - overlap)) (str_split a)
         = take (length (str_split a) - Z.to_nat (window_size - overlap)) (str_split b)
         ∧ (len (str_split a) = window_size →
            shares_exactly (Z.to_nat overlap) (str_split a) (str_split b))
         ∧ (2 * overlap <= window_size → (S (S j) < length chunks)%nat →
            len (str_split a) = window_size)).
Proof.
  intros Hw Ho.
  destruct (split_into_chunks_count text window_size overlap Hw Ho)
    as (chunks & Hrun & Hcount).
  pose proof (ceil_div_spec (len (str_split text)) (window_size - overlap) ltac:(lia))
    as Hceil.
  rewrite <- Hcount in Hceil.
  exists chunks. split; [done|].
  set (w := Z.to_nat window_size). set (s := Z.to_nat (window_size - overlap)).
  set (words := str_split text).
  assert (Htok : ∀ j c, chunks !! j = Some c → str_split c = window words w s j).
  { intros j c Hj. destruct (chunk_lookup text _ _ chunks j c Hw Ho Hrun Hj) as [-> _].
    apply window_tokens, str_split_tokens. }
  split.
  - intros c [j Hj]%list_elem_of_lookup. rewrite (Htok j c Hj).
    unfold len. rewrite window_length. lia.
  - intros j a b Ha Hb. rewrite (Htok _ _ Ha), (Htok _ _ Hb).
    assert (Hnext := window_next words w s j ltac:(lia)).
    pose proof (window_length words w s j) as Hla.
    pose proof (window_length words w s (S j)) as Hlb.
    destruct (chunk_lookup text _ _ chunks (S j) b Hw Ho Hrun Hb) as [_ Hlt].
    fold words in Hceil, Hlt. unfold len in *.
    split; [done|]. split.
    + intros Hfull. unfold shares_exactly.
      replace (length (window words w s j) - Z.to_nat overlap)%nat with s by lia.
      rewrite Hnext. split; [lia|]. split; [nia|]. f_equal. lia.
    + intros Hsmall Hfinal. nia.
Qed.

Lemma chunks_bounded_and_overlapping_witness :
  0 < 5 ∧ 0 <= 4 < 5 ∧
  ∃ chunks : list str,
    split_into_chunks (lit "a b c d e f") 5 4 = Ok chunks
    ∧ (∀ c, c ∈ chunks → len (str_split c) <= 5)
    ∧ (∀ (j : nat) (a b : str),
         chunks !! j = Some a → chunks !! S j = Some b →
         drop (Z.to_nat (5 - 4)) (str_split a)
         = take (length (str_split a) - Z.to_nat (5 - 4)) (str_split b)
         ∧ (len (str_split a) = 5 →
            shares_exactly (Z.to_nat 4) (str_split a) (str_split b))
         ∧ (2 * 4 <= 5 → (S (S j) < length chunks)%nat →
            len (str_split a) = 5)).
Proof.
  split; [lia|]. split; [lia|].
  apply (chunks_bounded_and_overlapping (lit "a b c d e f") 5 4); lia.
Defined.

(** C3. Chunking is exhaustive: the first step tokens of every chunk, one
    chunk after the other, are the tokens of the text in order; and so are the
    first chunk followed by every later chunk without its first overlap
    tokens. *)
Theorem chunks_cover_tokens (text : str) (window_size overlap : Z) :
  0 < window_size -> 0 <= overlap < window_size ->
  ∃ chunks : list str,
    split_into_chunks text window_size overlap = Ok chunks
    ∧ concat (map (fun c => take (Z.to_nat (window_size - overlap)) (str_split c)) chunks)
      = str_split text
    ∧ match chunks with
      | [] => []
      | c :: rest =>
          str_split c ++ concat (map (fun c => drop (Z.to_nat overlap) (str_split c)) rest)
      end = str_split text.
Proof.
  intros Hw Ho. eexists. split; [by apply split_into_chunks_closed|].
  set (w := Z.to_nat window_size). set (s := Z.to_nat (window_size - overlap)).
  set (words := str_split text).
  pose proof (ceil_div_spec (len words) (window_size - overlap) ltac:(lia)) as Hceil.
  remember (Z.to_nat (ceil_div (len words) (window_size - overlap))) as c eqn:Hc.
  assert (Htok : Forall is_token words) by apply str_split_tokens.
  unfold len in *. split.
  - rewrite map_map.
    rewrite (map_ext _ (fun j => take s (window words w s j)))
      by (intros j; by rewrite window_tokens).
    apply window_strides; nia.
  - destruct c as [|c].
    + simpl. destruct words; [done | simpl in *; nia].
    + simpl seq. rewrite <- seq_shift. simpl map. rewrite !map_map, window_tokens by done.
      rewrite (map_ext _ (fun j => drop (w - s) (window words w s (S j)))).
      * apply window_tails; nia.
      * intros j. rewrite window_tokens by done. f_equal. lia.
Qed.

Lemma chunks_cover_tokens_witness :
  0 < 3 ∧ 0 <= 1 < 3 ∧
  ∃ chunks : list str,
    split_into_chunks (lit "a b c d e") 3 1 = Ok chunks
    ∧ concat (map (fun c => take (Z.to_nat (3 - 1)) (str_split c)) chunks)
      = str_split (lit "a b c d e")
    ∧ match chunks with
      | [] => []
      | c :: rest =>
          str_split c ++ concat (map (fun c => drop (Z.to_nat 1) (str_split c)) rest)
      end = str_split (lit "a b c d e").
Proof.
  split; [lia|]. split; [lia|].
  apply (chunks_cover_tokens (lit "a b c d e") 3 1); lia.
Defined.

(** C4. split_into_chunks raises its parameter error (a ValueError) exactly
    when window_size <= 0 or overlap < 0 or overlap >= window_size; it raises
    nothing else, and for window_size > 0 and 0 <= overlap < window_size it
    returns its chunks. *)
Theorem split_into_chunks_raises_iff (text : str) (window_size overlap : Z) :
  ((∃ msg, split_into_chunks text window_size overlap = Raise (ValueError msg))
   ↔ window_size <= 0 ∨ overlap < 0 ∨ overlap >= window_size)
  ∧ ((∃ chunks, split_into_chunks text window_size overlap = Ok chunks)
     ↔ 0 < window_size ∧ 0 <= overlap < window_size)
  ∧ (∀ e, split_into_chunks text window_size overlap = Raise e → ∃ msg, e = ValueError msg).
Proof.
  destruct (Z.le_gt_cases window_size 0) as [Hw|Hw].
  - assert (Hrun : split_into_chunks text window_size overlap
                   = Raise (ValueError (lit "chunk_size must be positive"))).
    { unfold split_into_chunks. by rewrite (proj2 (Z.leb_le window_size 0)) by assumption. }
    rewrite Hrun. split; [|split].
    + split; [intros _; lia | intros _; eauto].
    + split; [intros [? [=]] | lia].
    + intros e [= <-]. eauto.
  - destruct (decide (0 <= overlap < window_size)) as [Ho|Ho].
    + rewrite split_into_chunks_closed by assumption. split; [|split].
      * split; [intros [? [=]] | lia].
      * split; [done | eauto].
      * intros e [=].
    + assert (Hrun : split_into_chunks text window_size overlap
                     = Raise (ValueError
                                (lit "overlap must be non-negative and less than chunk_size"))).
      { unfold split_into_chunks. rewrite (proj2 (Z.leb_gt window_size 0)) by assumption.
        rewrite Z.geb_leb.
        destruct (Z.ltb_spec overlap 0); [done|].
        destruct (Z.leb_spec window_size overlap); [done | lia]. }
      rewrite Hrun. split; [|split].
      * split; [intros _; lia | intros _; eauto].
      * split; [intros [? [=]] | lia].
      * intros e [= <-]. eauto.
Qed.

(** ** The caption normalizer *)

Lemma for_in_pure {A B : Type} (f : B -> A -> B) (body : B -> A -> result B)
    (xs : list A) (acc : B) :
  (∀ acc x, body acc x = Ok (f acc x)) ->
  for_in xs acc body = Ok (fold_left f xs acc).
Proof.
  intros Hbody. revert acc. induction xs as [|x xs IH]; intros acc; simpl; [done|].
  rewrite Hbody. simpl. apply IH.
Qed.

Lemma fold_left_app_flat_map {A B : Type} (g : A -> list B) (l : list A) (acc : list B) :
  fold_left (fun acc x => acc ++ g x) l acc = acc ++ flat_map g l.
Proof.
  revert acc. induction l as [|x l IH]; intros acc; simpl.
  - by rewrite app_nil_r.
  - by rewrite IH, <- app_assoc.
Qed.

Lemma slice_from_header {A : Type} (l : list A) :
  slice_from l (if len l >? 2 then 2 else 0) = if (2 <? length l)%nat then drop 2 l else l.
Proof.
  unfold slice_from, slice_index, len. rewrite Z.gtb_ltb.
  destruct (Z.ltb_spec 2 (Z.of_nat (length l))); destruct (Nat.ltb_spec 2 (length l)); try lia.
  - simpl. rewrite Z.min_l by lia. reflexivity.
  - simpl. rewrite Z.min_l by lia. reflexivity.
Qed.

Lemma _parse_srt_subtitles_normalized (srt_text : str) :
  _parse_srt_subtitles srt_text = Ok (srt_normalized srt_text).
Proof.
  unfold _parse_srt_subtitles, srt_normalized. simpl.
  rewrite (for_in_pure
             (fun lines block =>
                lines ++ map str_strip
                           (List.filter
                              (fun line => negb (srt_blank line) && negb (srt_numeric line))
                              (srt_block_lines block)))).
  - simpl. by rewrite fold_left_app_flat_map.
  - intros acc block. simpl. f_equal.
    rewrite slice_from_header.
    rewrite (fold_left_filter_map
               (fun line => truthy (str_strip line) && negb (str_isdigit (str_strip line)))).
    unfold srt_block_lines, srt_blank, srt_numeric.
    do 2 f_equal. apply filter_ext. intros line. by rewrite negb_involutive.
Qed.

(** C9, as stated, fails on a caption with a line of white space: the code
    drops the line, and the rule as worded keeps it as an empty string between
    two spaces. *)
Lemma srt_as_stated_fails :
  _parse_srt_subtitles srt_spaced = Ok (lit "Hello there General Kenobi")
  ∧ srt_as_stated srt_spaced = lit "Hello there  General Kenobi"
  ∧ _parse_srt_subtitles srt_spaced ≠ Ok (srt_as_stated srt_spaced).
Proof. split; [|split]; [by vm_compute | by vm_compute | by vm_compute]. Qed.

(** C9, amended. The normalizer trims the payload, cuts it into blocks at
    every blank line, trims each block, drops the first two lines of a block
    unless the block has two or fewer lines (then all its lines are kept),
    drops the remaining lines that are empty or purely numeric once trimmed,
    and joins the surviving trimmed lines with single spaces; the payload of
    the example yields "Hello there General Kenobi". *)
Theorem parse_srt_subtitles_blocks :
  (∀ srt_text : str, _parse_srt_subtitles srt_text = Ok (srt_normalized srt_text))
  ∧ _parse_srt_subtitles srt_example = Ok (lit "Hello there General Kenobi").
Proof. split; [apply _parse_srt_subtitles_normalized | by vm_compute]. Qed.

(** ** Collection keys *)

Lemma split_on_nil (c0 : ascii) (sep' cur : str) : split_on c0 sep' [] cur = [cur].
Proof. by simp split_on. Qed.

Lemma split_on_cons (c0 : ascii) (sep' : str) (c : ascii) (s' cur : str) :
  split_on c0 sep' (c :: s') cur
  = if startswith (c0 :: sep') (c :: s')
    then cur :: split_on c0 sep' (drop (length sep') s') []
    else split_on c0 sep' s' (cur ++ [c]).
Proof.
  funelim (split_on c0 sep' (c :: s') cur);
    match goal with E : startswith _ _ = _ |- _ => by rewrite E end.
Qed.

Lemma str_join_cons (sep x y : str) (xs : list str) :
  str_join sep (x :: y :: xs) = x ++ sep ++ str_join sep (y :: xs).
Proof. reflexivity. Qed.

Lemma split_on_char_join (c d : ascii) (s cur : str) :
  str_join [d] (split_on c [] s cur)
  = cur ++ map (fun x => if decide (x = c) then d else x) s.
Proof.
  revert cur. induction s as [|x s IH]; intros cur.
  - rewrite split_on_nil. simpl. by rewrite app_nil_r.
  - rewrite split_on_cons. simpl startswith. simpl length. rewrite drop_0.
    destruct (decide (c = x)) as [->|Hne].
    + specialize (IH []). destruct (split_on x [] s []) as [|y ys] eqn:E.
      * simpl in IH. destruct s; [by rewrite split_on_nil in E|].
        simpl in IH. discriminate.
      * rewrite str_join_cons, IH. simpl. by rewrite decide_True.
    + rewrite IH, <- app_assoc. simpl. rewrite decide_False by congruence. done.
Qed.

(** Replacing one character by another is a map over the string. *)
Lemma str_replace_char (c d : ascii) (s : str) :
  str_replace s [c] [d] = map (fun x => if decide (x = c) then d else x) s.
Proof. unfold str_replace. by rewrite split_on_char_join. Qed.

Lemma str_replace_space (s : str) :
  str_replace s (lit " ") (lit "_") = map underscore s.
Proof. apply str_replace_char. Qed.

Lemma tolower_underscore (c : ascii) : tolower (underscore c) = underscore (tolower c).
Proof.
  destruct c as [[] [] [] [] [] [] [] []]; reflexivity.
Qed.

(** Lower-casing and turning spaces into underscores commute. *)
Lemma str_lower_replace_space (s : str) :
  str_lower (str_replace s (lit " ") (lit "_"))
  = str_replace (str_lower s) (lit " ") (lit "_").
Proof.
  rewrite !str_replace_space. unfold str_lower. rewrite !map_map.
  apply map_ext, tolower_underscore.
Qed.

(** C5, as stated, fails: no site trims the name, so " Alice " keeps its
    spaces as underscores and does not share the collection of "Alice". *)
Lemma padded_name_has_its_own_key :
  RAGPipeline_collection_name (lit " Alice ") None = lit "persona__alice_"
  ∧ RAGPipeline_collection_name (lit "Alice") None = lit "persona_alice"
  ∧ RAGPipeline_collection_name (lit " Alice ") None ≠ RAGPipeline_collection_name (lit "Alice") None
  ∧ RAGPipeline_collection_name (lit " Alice ") None ≠ collection_key_as_stated (lit " Alice ").
Proof. repeat split; by vm_compute. Qed.

(** C5, amended. The Vector Index (when it is given no collection name of
    its own), the Registry's exists check and the Registry's delete derive the
    key in the same way: spaces to underscores, then lowercase, after the
    prefix "persona_"; the name is not trimmed. Two names that differ only in
    letter case get the same key ("Alice" and "alice"), and so do two names
    that differ only in a space against an underscore; a name with a space
    before or after it gets a key of its own. *)
Theorem collection_key_is_shared_and_lossy :
  (∀ name : str,
     RAGPipeline_collection_name name None
     = lit "persona_" ++ str_lower (str_replace name (lit " ") (lit "_"))
     ∧ delete_persona_collection_name name = RAGPipeline_collection_name name None
     ∧ persona_exists_collection_name name = RAGPipeline_collection_name name None)
  ∧ (∀ a b : str,
       str_lower a = str_lower b →
       RAGPipeline_collection_name a None = RAGPipeline_collection_name b None)
  ∧ (∀ a b : str,
       map underscore a = map underscore b →
       RAGPipeline_collection_name a None = RAGPipeline_collection_name b None)
  ∧ RAGPipeline_collection_name (lit "Alice") None = RAGPipeline_collection_name (lit "alice") None
  ∧ (∀ name : str,
       RAGPipeline_collection_name (lit " " ++ name) None ≠ RAGPipeline_collection_name name None
       ∧ RAGPipeline_collection_name (name ++ lit " ") None ≠ RAGPipeline_collection_name name None).
Proof.
  split; [done|]. split; [|split; [|split; [by vm_compute|]]].
  - intros a b Hab. unfold RAGPipeline_collection_name.
    by rewrite !str_lower_replace_space, Hab.
  - intros a b Hab. unfold RAGPipeline_collection_name.
    by rewrite !str_replace_space, Hab.
  - intros name. unfold RAGPipeline_collection_name.
    rewrite !str_replace_space. unfold str_lower. split; intros H.
    + apply (f_equal length) in H. simpl in H. rewrite !length_map in H. lia.
    + apply (f_equal length) in H. simpl in H.
      rewrite !length_map, length_app in H. simpl in H. lia.
Qed.

(** ** Effects: what a [try] lets through *)

Section Monad.

Context {S A B : Type}.



Lemma try_except_ok (body : M S A) (handler : exn -> M S A) (s s' : S) (a : A) :
  body s = (Ok a, s') -> try_except body handler s = (Ok a, s').
Proof. intros H. unfold try_except. by rewrite H. Qed.

Lemma try_except_raise (body : M S A) (handler : exn -> M S A) (s s' : S) (e : exn) :
  body s = (Raise e, s') -> try_except body handler s = handler e s'.
Proof. intros H. unfold try_except. by rewrite H. Qed.

(** A handler that returns a value catches everything. *)
Lemma try_except_total (body : M S A) (a0 : A) (s : S) :
  ∃ a s', try_except body (fun _ => mret a0) s = (Ok a, s').
Proof.
  unfold try_except. destruct (body s) as [[a|e] s']; eauto.
Qed.

End Monad.

Section Registry.

Context {W : Type} {B : Backend W}.

Lemma call_run {A : Type} (m : M W A) (p : RAGPipeline) (w : W) :
  call m (p, w) = ((m w).1, (p, (m w).2)).
Proof. unfold call. simpl. by destruct (m w). Qed.

Lemma delete_persona_try_true (st : Settings) (persona : str) (w w' : W) (b : bool) :
  delete_persona_try st persona w = (Ok b, w') -> b = true.
Proof.
  unfold delete_persona_try, mbind, M_bind, mret, M_ret.
  destruct (PersistentClient _ w) as [[c|?] w1]; [|done].
  destruct (delete_collection _ _ w1) as [[[]|?] w2]; [|done].
  destruct (path_exists _ w2) as [[[]|?] w3]; [| |done].
  - destruct (path_unlink _ w3) as [[[]|?] w4]; [|done]. by intros [= <- _].
  - by intros [= <- _].
Qed.

End Registry.

(** C10. Whatever the storage operations do, delete_persona returns a
    boolean and never raises: an exception raised by opening the client, by
    deleting the collection, by looking for the metadata file or by removing
    it makes the result false, and the result is true only when the try suite
    ran to its end. On the disk a persona that has no collection gives
    false. *)
Theorem delete_persona_never_raises :
  (∀ (W : Type) (B : Backend W) (st : Settings) (persona : str) (w : W),
     (∃ b w', delete_persona st persona w = (Ok b, w'))
     ∧ (∀ e w', delete_persona_try st persona w = (Raise e, w') →
          delete_persona st persona w = (Ok false, w'))
     ∧ (∀ b w', delete_persona_try st persona w = (Ok b, w') →
          b = true ∧ delete_persona st persona w = (Ok true, w'))
     ∧ (∀ e w1, PersistentClient (get_chroma_path st) w = (Raise e, w1) →
          delete_persona st persona w = (Ok false, w1))
     ∧ (∀ c w1,
          PersistentClient (get_chroma_path st) w = (Ok c, w1) →
          (∀ e w2,
             delete_collection c (delete_persona_collection_name persona) w1 = (Raise e, w2) →
             delete_persona st persona w = (Ok false, w2))
          ∧ (∀ w2,
               delete_collection c (delete_persona_collection_name persona) w1 = (Ok tt, w2) →
               (∀ e w3, path_exists (persona_json_path st persona) w2 = (Raise e, w3) →
                  delete_persona st persona w = (Ok false, w3))
               ∧ (∀ w3, path_exists (persona_json_path st persona) w2 = (Ok false, w3) →
                    delete_persona st persona w = (Ok true, w3))
               ∧ (∀ w3, path_exists (persona_json_path st persona) w2 = (Ok true, w3) →
                    (∀ e w4, path_unlink (persona_json_path st persona) w3 = (Raise e, w4) →
                       delete_persona st persona w = (Ok false, w4))
                    ∧ (∀ w4, path_unlink (persona_json_path st persona) w3 = (Ok tt, w4) →
                         delete_persona st persona w = (Ok true, w4))))))
  ∧ (∀ (valid_name : str -> bool) (distance : str -> str -> Z)
       (splitter : Z -> Z -> str -> list str) (st : Settings) (persona : str) (w : World),
       stored w (get_chroma_path st, delete_persona_collection_name persona) = None →
       (delete_persona (B := disk_backend valid_name distance splitter) st persona w).1
       = Ok false).
Proof.
  split.
  - intros W B st persona w. split; [apply try_except_total|].
    split; [intros e w' H; unfold delete_persona; by rewrite (try_except_raise _ _ _ _ _ H)|].
    split.
    { intros b w' H. pose proof (delete_persona_try_true _ _ _ _ _ H) as ->.
      split; [done|]. unfold delete_persona. by rewrite (try_except_ok _ _ _ _ _ H). }
    unfold delete_persona, try_except, delete_persona_try, mbind, M_bind, mret, M_ret.
    split.
    { intros e w1 ->. done. }
    intros c w1 ->. split.
    { intros e w2 ->. done. }
    intros w2 ->. split; [by intros e w3 ->|]. split; [by intros w3 ->|].
    intros w3 ->. split; [by intros e w4 ->| by intros w4 ->].
  - intros valid_name distance splitter st persona w Habsent.
    unfold delete_persona, try_except, delete_persona_try, mbind, M_bind, mret, M_ret.
    simpl. unfold disk_PersistentClient, disk_delete_collection, on_disk, stored in *.
    simpl in *. destruct (online w) eqn:Hon; [|done].
    destruct (dbs w !! get_chroma_path st) as [db|] eqn:Hdb; simpl in *.
    + rewrite Hon, Hdb, Habsent. done.
    + rewrite Hon, lookup_insert_eq, lookup_empty. done.
Qed.

(** ** Retrieval *)

Section Retrieval.

Context {W : Type} {B : Backend W}.

Lemma similarity_search_store_raises (query : str) (k : option Z) (p : RAGPipeline) (w : W)
    (e : exn) (s1 : RAGPipeline * W) :
  get_vectorstore (p, w) = (Raise e, s1) ->
  similarity_search query k (p, w) = (Raise e, s1).
Proof.
  intros H. unfold similarity_search, mbind, M_bind, self. simpl. by rewrite H.
Qed.

Lemma similarity_search_search_raises (query : str) (k : option Z) (p : RAGPipeline) (w : W)
    (v : vectorstore) (s1 : RAGPipeline * W) (e : exn) (w2 : W) :
  get_vectorstore (p, w) = (Ok v, s1) ->
  similarity_search_with_score v query (k_or_default (settings p) k) s1.2 = (Raise e, w2) ->
  similarity_search query k (p, w) = (Raise e, (s1.1, w2)).
Proof.
  intros Hv Hs. unfold similarity_search, mbind, M_bind, self, call. simpl.
  by rewrite Hv, Hs.
Qed.




Lemma get_collection_stats_total (p : RAGPipeline) (w : W) :
  ∃ stats s',
    get_collection_stats (p, w) = (Ok stats, s')
    ∧ stats_persona stats = persona_name p
    ∧ stats_collection_name stats = collection_name p
    ∧ (∀ e s1, get_vectorstore (p, w) = (Raise e, s1) → document_count stats = 0 ∧ s' = s1)
    ∧ (∀ v s1, get_vectorstore (p, w) = (Ok v, s1) →
         (∀ e w2, collection_count v s1.2 = (Raise e, w2) →
            document_count stats = 0 ∧ s' = (s1.1, w2))
         ∧ (∀ n w2, collection_count v s1.2 = (Ok n, w2) →
              document_count stats = n ∧ s' = (s1.1, w2))).
Proof.
  unfold get_collection_stats, try_except, mbind, M_bind, mret, M_ret, self, call. simpl.
  destruct (get_vectorstore (p, w)) as [[v|e] s1] eqn:Hv.
  - destruct (collection_count v s1.2) as [[n|e] w2] eqn:Hc.
    + eexists _, _. split; [done|]. split; [done|]. split; [done|]. split; [done|].
      intros v' s1' [= <- <-]. rewrite Hc. split; [done|]. by intros n' w2' [= <- <-].
    + eexists _, _. split; [done|]. split; [done|]. split; [done|]. split; [done|].
      intros v' s1' [= <- <-]. rewrite Hc. split; [|done]. by intros e' w2' [= <- <-].
  - eexists _, _. split; [done|]. split; [done|]. split; [done|]. split; [|done].
    by intros e' s1' [= <- <-].
Qed.

End Retrieval.

(** C7, as stated, fails for search: similarity_search has no handler, so
    with the disk out of reach the exception of the storage reaches the
    caller. *)
Lemma search_propagates_storage_failure : ¬ search_never_raises.
Proof.
  intros H.
  destruct (H World simple_disk (RAGPipeline_init default_settings (lit "Alice") None)
              offline_world (lit "hello") None) as (results & s' & Hrun).
  assert (Hraise :
            (similarity_search (B := simple_disk) (lit "hello") None
               (RAGPipeline_init default_settings (lit "Alice") None, offline_world)).1
            = Raise unavailable) by (vm_compute; reflexivity).
  rewrite Hrun in Hraise. discriminate.
Qed.

(** C7, amended. get_collection_stats (the only place that counts the
    documents) recovers locally: whatever the storage does it returns the
    statistics of the pipeline, with document_count 0 when opening the
    collection or counting raised, and the count otherwise. similarity_search
    does not recover: an exception raised while opening the collection or by
    the search of the store is raised to its caller. *)
Theorem stats_recover_and_search_propagates :
  ∀ (W : Type) (B : Backend W) (p : RAGPipeline) (w : W),
    (∃ stats s',
       get_collection_stats (p, w) = (Ok stats, s')
       ∧ stats_persona stats = persona_name p
       ∧ stats_collection_name stats = collection_name p
       ∧ (∀ e s1, get_vectorstore (p, w) = (Raise e, s1) → document_count stats = 0 ∧ s' = s1)
       ∧ (∀ v s1, get_vectorstore (p, w) = (Ok v, s1) →
            (∀ e w2, collection_count v s1.2 = (Raise e, w2) →
               document_count stats = 0 ∧ s' = (s1.1, w2))
            ∧ (∀ n w2, collection_count v s1.2 = (Ok n, w2) →
                 document_count stats = n ∧ s' = (s1.1, w2))))
    ∧ (∀ (query : str) (k : option Z),
         (∀ e s1, get_vectorstore (p, w) = (Raise e, s1) →
            similarity_search query k (p, w) = (Raise e, s1))
         ∧ (∀ v s1 e w2,
              get_vectorstore (p, w) = (Ok v, s1) →
              similarity_search_with_score v query (k_or_default (settings p) k) s1.2
              = (Raise e, w2) →
              similarity_search query k (p, w) = (Raise e, (s1.1, w2)))).
Proof.
  intros W B p w. split; [apply get_collection_stats_total|].
  intros query k. split.
  - intros e s1. apply similarity_search_store_raises.
  - intros v s1 e w2. apply similarity_search_search_raises.
Qed.

(** ** The disk *)

Section DiskFacts.

Variable valid_name : str -> bool.
Variable distance : str -> str -> Z.
Variable splitter : Z -> Z -> str -> list str.

Lemma disk_client_run (w : World) (c : Path) :
  online w = true ->
  ∃ w1,
    disk_PersistentClient c w = (Ok c, w1)
    ∧ online w1 = true
    ∧ files w1 = files w
    ∧ dbs w1 !! c = Some (default ∅ (dbs w !! c))
    ∧ (∀ c', c' ≠ c → dbs w1 !! c' = dbs w !! c').
Proof.
  intros Hon. unfold disk_PersistentClient, on_disk. rewrite Hon.
  destruct (dbs w !! c) as [db|] eqn:Hdb.
  - exists w. by rewrite Hdb.
  - eexists. split; [done|]. simpl. rewrite lookup_insert_eq.
    repeat split; try done. intros c' Hc'. by rewrite lookup_insert_ne.
Qed.

Lemma disk_chroma_run (w : World) (c : Path) (name e : str) :
  online w = true ->
  valid_name name = true ->
  ∃ w2,
    disk_Chroma valid_name c name e w = (Ok (c, name), w2)
    ∧ online w2 = true
    ∧ files w2 = files w
    ∧ stored w2 (c, name) = Some (default [] (stored w (c, name)))
    ∧ (∀ c', c' ≠ c → dbs w2 !! c' = dbs w !! c').
Proof.
  intros Hon Hvalid. unfold disk_Chroma, on_disk, stored. rewrite Hon, Hvalid. simpl.
  destruct (dbs w !! c) as [db|] eqn:Hdb; simpl.
  - destruct (db !! name) as [docs|] eqn:Hname.
    + exists w. rewrite Hdb. simpl. by rewrite Hname.
    + eexists. split; [done|]. simpl. rewrite lookup_insert_eq. simpl.
      rewrite lookup_insert_eq.
      repeat split; try done. intros c' Hc'. by rewrite lookup_insert_ne.
  - rewrite lookup_empty. eexists. split; [done|]. simpl. rewrite lookup_insert_eq. simpl.
    rewrite lookup_insert_eq.
    repeat split; try done. intros c' Hc'. by rewrite lookup_insert_ne.
Qed.

(** Opening a collection on a disk that can be reached: the collection is
    there afterwards, with the documents it had, or empty when it is new. *)
Lemma disk_open (w : World) (c : Path) (name e : str) :
  online w = true ->
  valid_name name = true ->
  ∃ w1 w2,
    disk_PersistentClient c w = (Ok c, w1)
    ∧ disk_Chroma valid_name c name e w1 = (Ok (c, name), w2)
    ∧ online w2 = true
    ∧ stored w2 (c, name) = Some (default [] (stored w (c, name)))
    ∧ (∀ c', c' ≠ c → dbs w2 !! c' = dbs w !! c')
    ∧ files w2 = files w.
Proof.
  intros Hon Hname.
  destruct (disk_client_run w c Hon) as (w1 & Hc & Hon1 & Hf1 & Hdb1 & Ho1).
  destruct (disk_chroma_run w1 c name e Hon1 Hname) as (w2 & Hch & Hon2 & Hf2 & Hst & Ho2).
  exists w1, w2. split; [done|]. split; [done|]. split; [done|]. split; [|split].
  - rewrite Hst. f_equal. unfold stored. simpl. rewrite Hdb1. simpl.
    by destruct (dbs w !! c).
  - intros c' Hc'. by rewrite Ho2, Ho1.
  - by rewrite Hf2.
Qed.





End DiskFacts.



(** ** The registry against the pipeline *)

(** C6, on the code: after a successful add of one chunk through the Vector
    Index of "Alice", the collection is on the disk under
    data/chroma_db/persona_alice and list_personas names it, but
    persona_exists, which opens data/chroma_db itself, answers false (and
    delete_persona, which opens the same place, finds nothing to delete). *)
Theorem persona_exists_misses_added_persona :
  after_add.1 = Ok 1
  ∧ length <$> stored after_add.2.2 (lit "data/chroma_db/persona_alice", lit "persona_alice")
    = Some 1%nat
  ∧ (list_personas (B := simple_disk) default_settings after_add.2.2).1 = Ok [lit "alice"]
  ∧ (persona_exists (B := simple_disk) default_settings (lit "Alice") after_add.2.2).1
    = Ok false
  ∧ (persona_exists (B := simple_disk) default_settings (lit "alice") after_add.2.2).1
    = Ok false
  ∧ (delete_persona (B := simple_disk) default_settings (lit "Alice") after_add.2.2).1
    = Ok false.
Proof. repeat split; by vm_compute. Qed.

(** ** [text_utils]: cleaning, truncating, sanitizing *)

Lemma str_rstrip_snoc (s : str) (c : ascii) :
  str_rstrip (s ++ [c]) = if isspace c then str_rstrip s else s ++ [c].
Proof.
  unfold str_rstrip. rewrite rev_app_distr. simpl.
  destruct (isspace c); [done|]. simpl. by rewrite rev_involutive.
Qed.

Lemma str_rstrip_nil : str_rstrip [] = [].
Proof. reflexivity. Qed.

(** Stripping on the right, read from the left. *)
Lemma str_rstrip_app (x y : str) :
  str_rstrip (x ++ y) = match str_rstrip y with [] => str_rstrip x | _ => x ++ str_rstrip y end.
Proof.
  induction y as [|c y IH] using rev_ind.
  - by rewrite app_nil_r.
  - rewrite app_assoc, !str_rstrip_snoc. destruct (isspace c); [done|].
    rewrite <- app_assoc. by destruct y.
Qed.

Lemma str_rstrip_clean (x : str) :
  Forall (fun c => isspace c = false) x -> str_rstrip x = x.
Proof.
  induction x as [|c x IH] using rev_ind; [done|].
  intros [Hx Hc]%Forall_app. rewrite str_rstrip_snoc.
  apply Forall_inv in Hc. by rewrite Hc.
Qed.

Lemma str_lstrip_clean (c : ascii) (x : str) :
  isspace c = false -> str_lstrip (c :: x) = c :: x.
Proof. intros H. simpl. by rewrite H. Qed.

Lemma str_join_tokens_nil (ts : list str) :
  Forall is_token ts -> str_join (lit " ") ts = [] -> ts = [].
Proof.
  intros Hts H. destruct Hts as [|t ts [Hne _] _]; [done|].
  destruct ts; simpl in H; [done|]. by destruct t.
Qed.

(** After the substitution, what is left of the right strip is the tokens
    joined by single spaces. *)
Lemma sub_whitespace_runs_rstrip (s : str) :
  str_rstrip (sub_whitespace_runs s true) = str_join (lit " ") (str_split s)
  ∧ ∀ cur : str,
      cur ≠ [] -> Forall (fun c => isspace c = false) cur ->
      str_rstrip (cur ++ sub_whitespace_runs s false) = str_join (lit " ") (split_ws s cur).
Proof.
  unfold str_split. induction s as [|c s [IHt IHf]].
  - split; [done|]. intros cur Hne Hcur. simpl. rewrite app_nil_r.
    rewrite str_rstrip_clean by done. by destruct cur.
  - split.
    + simpl. destruct (isspace c) eqn:Hc; [done|].
      apply (IHf [c]); [done | by repeat constructor].
    + intros cur Hne Hcur. simpl. destruct (isspace c) eqn:Hc.
      * change (cur ++ " "%char :: sub_whitespace_runs s true)
          with (cur ++ [" "%char] ++ sub_whitespace_runs s true).
        rewrite app_assoc, str_rstrip_app, IHt.
        pose proof (split_ws_tokens s [] ltac:(constructor)) as Htok.
        destruct cur as [|c0 cur]; [done|].
        destruct (split_ws s []) as [|t ts] eqn:Hs.
        -- simpl str_join. rewrite str_rstrip_snoc. simpl isspace. cbv iota.
           by rewrite str_rstrip_clean.
        -- destruct (str_join (lit " ") (t :: ts)) eqn:Hj.
           ++ by apply str_join_tokens_nil in Hj.
           ++ rewrite <- Hj. rewrite str_join_cons. by rewrite <- app_assoc.
      * replace (cur ++ c :: sub_whitespace_runs s false)
          with ((cur ++ [c]) ++ sub_whitespace_runs s false) by (by rewrite <- app_assoc).
        apply IHf; [by destruct cur|].
        apply Forall_app. split; [done | by repeat constructor].
Qed.

Lemma sub_whitespace_runs_in_run_lstrip (s : str) :
  str_lstrip (sub_whitespace_runs s true) = sub_whitespace_runs s true.
Proof.
  induction s as [|c s IH]; [done|]. simpl.
  destruct (isspace c) eqn:Hc; [done|]. simpl. by rewrite Hc.
Qed.

Lemma clean_text_tokens (text : str) :
  clean_text text = str_join (lit " ") (str_split text).
Proof.
  unfold clean_text, str_strip. destruct text as [|c s]; [done|].
  simpl sub_whitespace_runs. destruct (isspace c) eqn:Hc.
  - simpl str_lstrip. rewrite sub_whitespace_runs_in_run_lstrip.
    rewrite (proj1 (sub_whitespace_runs_rstrip s)).
    unfold str_split. simpl. by rewrite Hc.
  - rewrite str_lstrip_clean by done.
    change (c :: sub_whitespace_runs s false) with ([c] ++ sub_whitespace_runs s false).
    rewrite (proj2 (sub_whitespace_runs_rstrip s) [c]); [| done | by repeat constructor].
    unfold str_split. simpl. by rewrite Hc.
Qed.

Lemma clean_text_split (text : str) : str_split (clean_text text) = str_split text.
Proof. rewrite clean_text_tokens. apply str_split_join, str_split_tokens. Qed.

(** X1. clean_text gives the white-space separated tokens of the text joined
    by single spaces. *)
Theorem clean_text_joins_tokens (text : str) :
  clean_text text = str_join (lit " ") (str_split text).
Proof. apply clean_text_tokens. Qed.

(** X2. Cleaning leaves the words alone: the tokens, and so the word count,
    of the cleaned text are those of the text. *)
Theorem clean_text_keeps_words (text : str) :
  str_split (clean_text text) = str_split text
  ∧ count_words (clean_text text) = count_words text.
Proof.
  pose proof (clean_text_split text) as H.
  split; [done|]. unfold count_words. by rewrite H.
Qed.

(** X3. clean_text is idempotent. *)
Theorem clean_text_idempotent (text : str) :
  clean_text (clean_text text) = clean_text text.
Proof.
  rewrite (clean_text_tokens (clean_text text)).
  rewrite clean_text_split.
  by rewrite clean_text_tokens.
Qed.

(** X4. When the suffix fits in max_length, truncate_text never returns more
    than max_length characters: a text that fits is returned as it is, and a
    longer one is cut to max_length - len(suffix) characters followed by the
    suffix, max_length characters in all. *)
Theorem truncate_text_fits (text : str) (max_length : Z) (suffix : str) :
  len suffix <= max_length ->
  len (truncate_text text max_length suffix) <= max_length
  ∧ (len text <= max_length → truncate_text text max_length suffix = text)
  ∧ (max_length < len text →
     truncate_text text max_length suffix
     = take (Z.to_nat (max_length - len suffix)) text ++ suffix
     ∧ len (truncate_text text max_length suffix) = max_length).
Proof.
  intros Hfit. unfold truncate_text.
  destruct (Z.leb_spec (len text) max_length) as [Hle|Hgt].
  - split; [done|]. split; [done | lia].
  - assert (Hcut : slice text 0 (max_length - len suffix)
                   = take (Z.to_nat (max_length - len suffix)) text).
    { rewrite <- (Z.add_0_l (max_length - len suffix)).
      rewrite slice_window by (unfold len in *; lia). by rewrite drop_0. }
    rewrite Hcut.
    assert (Hlen : len (take (Z.to_nat (max_length - len suffix)) text ++ suffix) = max_length).
    { unfold len in *. rewrite length_app, length_take. lia. }
    split; [lia|]. split; [lia | done].
Qed.

Lemma truncate_text_fits_witness :
  len (lit "...") <= 8
  ∧ len (truncate_text (lit "hello world") 8 (lit "...")) <= 8
  ∧ (len (lit "hello world") <= 8 → truncate_text (lit "hello world") 8 (lit "...") = lit "hello world")
  ∧ (8 < len (lit "hello world") →
     truncate_text (lit "hello world") 8 (lit "...")
     = take (Z.to_nat (8 - len (lit "..."))) (lit "hello world") ++ lit "..."
     ∧ len (truncate_text (lit "hello world") 8 (lit "...")) = 8).
Proof.
  split; [by vm_compute|].
  apply (truncate_text_fits (lit "hello world") 8 (lit "...")). by vm_compute.
Defined.

(** X5. When max_length is smaller than the suffix, a text longer than
    max_length is not shortened to max_length: the negative slice bound counts
    from the end, and the result has max(len(suffix), len(text) + max_length)
    characters, more than max_length. *)
Theorem truncate_text_short_limit (text : str) (max_length : Z) (suffix : str) :
  max_length < len suffix -> max_length < len text ->
  len (truncate_text text max_length suffix) = Z.max (len suffix) (len text + max_length)
  ∧ max_length < len (truncate_text text max_length suffix).
Proof.
  intros Hshort Hlong. unfold truncate_text.
  rewrite (proj2 (Z.leb_gt (len text) max_length)) by done.
  unfold slice, slice_index. change (0 <? 0) with false. cbv iota.
  rewrite (proj2 (Z.ltb_lt (max_length - len suffix) 0)) by lia.
  unfold len in *. rewrite length_app, length_take, length_drop. lia.
Qed.

Lemma truncate_text_short_limit_witness :
  2 < len (lit "...") ∧ 2 < len (lit "hello world")
  ∧ len (truncate_text (lit "hello world") 2 (lit "..."))
    = Z.max (len (lit "...")) (len (lit "hello world") + 2)
  ∧ 2 < len (truncate_text (lit "hello world") 2 (lit "...")).
Proof.
  split; [by vm_compute|]. split; [by vm_compute|].
  apply (truncate_text_short_limit (lit "hello world") 2 (lit "...")); by vm_compute.
Defined.

Lemma no_underscore_run_cons (c : ascii) (s : str) :
  no_underscore_run (c :: s)
  ↔ (c = "_"%char → head s ≠ Some "_"%char) ∧ no_underscore_run s.
Proof.
  unfold no_underscore_run. split.
  - intros H. split.
    + intros -> Hs. apply (H 0%nat); [done|]. by destruct s.
    + intros i. apply (H (S i)).
  - intros [Hc Hs] [|i]; simpl.
    + intros [= ->] Hnext. apply Hc; [done|]. by destruct s.
    + apply Hs.
Qed.

Lemma no_underscore_run_nil : no_underscore_run [].
Proof. by intros i. Qed.

Lemma no_underscore_run_app_l (x y : str) : no_underscore_run (x ++ y) -> no_underscore_run x.
Proof.
  intros H i Hi Hnext. apply (H i).
  - by apply lookup_app_l_Some.
  - by apply lookup_app_l_Some.
Qed.

Lemma no_underscore_run_app_r (x y : str) : no_underscore_run (x ++ y) -> no_underscore_run y.
Proof.
  induction x as [|c x IH]; [done|]. simpl. intros [_ H]%no_underscore_run_cons. by apply IH.
Qed.

Lemma sub_unsafe_safe (text : str) :
  Forall (fun c => filename_unsafe c = false) (sub_unsafe text).
Proof.
  unfold sub_unsafe. apply Forall_map, Forall_forall. intros c _. simpl.
  by destruct (filename_unsafe c) eqn:E.
Qed.

Lemma sub_unsafe_id (text : str) :
  Forall (fun c => filename_unsafe c = false) text -> sub_unsafe text = text.
Proof.
  unfold sub_unsafe. induction 1 as [|c s Hc _ IH]; [done|]. simpl. by rewrite Hc, IH.
Qed.

Lemma sub_underscore_runs_Forall (P : ascii -> Prop) (s : str) (b : bool) :
  Forall P s -> Forall P (sub_underscore_runs s b).
Proof.
  intros H. revert b. induction H as [|c s Hc _ IH]; intros b; simpl; [done|].
  destruct (decide (c = "_"%char)) as [->|]; [destruct b|]; try constructor; auto.
Qed.

Lemma sub_underscore_runs_head (s : str) :
  head (sub_underscore_runs s true) ≠ Some "_"%char.
Proof.
  induction s as [|c s IH]; [done|]. simpl.
  destruct (decide (c = "_"%char)); [done|]. simpl. congruence.
Qed.

Lemma sub_underscore_runs_no_run (s : str) (b : bool) :
  no_underscore_run (sub_underscore_runs s b).
Proof.
  revert b. induction s as [|c s IH]; intros b; simpl; [apply no_underscore_run_nil|].
  destruct (decide (c = "_"%char)) as [->|Hc].
  - destruct b; [apply IH|]. apply no_underscore_run_cons. split; [|apply IH].
    intros _. apply sub_underscore_runs_head.
  - apply no_underscore_run_cons. split; [done | apply IH].
Qed.

Lemma sub_underscore_runs_id (s : str) (b : bool) :
  no_underscore_run s -> (b = true → head s ≠ Some "_"%char) ->
  sub_underscore_runs s b = s.
Proof.
  revert b. induction s as [|c s IH]; intros b Hrun Hb; [done|]. simpl.
  apply no_underscore_run_cons in Hrun as [Hc Hrun].
  destruct (decide (c = "_"%char)) as [->|Hne].
  - destruct b; [by destruct Hb|]. f_equal. apply IH; [done|]. intros _. by apply Hc.
  - f_equal. by apply IH.
Qed.

(** Stripping a set of characters. *)
Lemma str_lstrip_chars_suffix (s chars : str) :
  ∃ pre, s = pre ++ str_lstrip_chars s chars.
Proof.
  induction s as [|c s [pre IH]]; [by exists []|]. simpl.
  destruct (bool_decide (c ∈ chars)); [|by exists []].
  exists (c :: pre). simpl. by f_equal.
Qed.

Lemma str_lstrip_chars_head (s chars : str) (c : ascii) :
  head (str_lstrip_chars s chars) = Some c -> c ∉ chars.
Proof.
  induction s as [|c' s IH]; [done|]. simpl.
  destruct (bool_decide (c' ∈ chars)) eqn:E; [done|].
  simpl. intros [= ->]. by apply bool_decide_eq_false in E.
Qed.

Lemma str_lstrip_chars_id (s chars : str) :
  (∀ c, head s = Some c → c ∉ chars) -> str_lstrip_chars s chars = s.
Proof.
  destruct s as [|c s]; [done|]. intros H. simpl.
  by rewrite bool_decide_eq_false_2 by (by apply H).
Qed.

Lemma str_rstrip_chars_snoc (s chars : str) (c : ascii) :
  str_rstrip_chars (s ++ [c]) chars
  = if bool_decide (c ∈ chars) then str_rstrip_chars s chars else s ++ [c].
Proof.
  unfold str_rstrip_chars. rewrite rev_app_distr. simpl.
  destruct (bool_decide (c ∈ chars)); [done|]. simpl. by rewrite rev_involutive.
Qed.

Lemma str_rstrip_chars_prefix (s chars : str) :
  ∃ post, s = str_rstrip_chars s chars ++ post.
Proof.
  induction s as [|c s [post IH]] using rev_ind; [by exists []|].
  rewrite str_rstrip_chars_snoc. destruct (bool_decide (c ∈ chars)).
  - exists (post ++ [c]). rewrite app_assoc. by f_equal.
  - exists []. by rewrite app_nil_r.
Qed.

Lemma str_rstrip_chars_last (s chars : str) (c : ascii) :
  last (str_rstrip_chars s chars) = Some c -> c ∉ chars.
Proof.
  induction s as [|c' s IH] using rev_ind; [done|].
  rewrite str_rstrip_chars_snoc. destruct (bool_decide (c' ∈ chars)) eqn:E; [done|].
  rewrite last_snoc. intros [= ->]. by apply bool_decide_eq_false in E.
Qed.

Lemma str_rstrip_chars_id (s chars : str) :
  (∀ c, last s = Some c → c ∉ chars) -> str_rstrip_chars s chars = s.
Proof.
  destruct s as [|c s _] using rev_ind; [done|]. intros H.
  rewrite str_rstrip_chars_snoc.
  by rewrite bool_decide_eq_false_2 by (apply H; by rewrite last_snoc).
Qed.

Lemma head_prefix_of {A : Type} (x post : list A) (a : A) :
  head x = Some a -> head (x ++ post) = Some a.
Proof. by destruct x. Qed.

Lemma sanitize_for_filename_is_clean (text : str) :
  filename_clean (sanitize_for_filename text).
Proof.
  unfold sanitize_for_filename, str_strip_chars.
  set (u := sub_underscore_runs (sub_unsafe text) false).
  assert (Hsafe : Forall (fun c => filename_unsafe c = false) u)
    by apply sub_underscore_runs_Forall, sub_unsafe_safe.
  assert (Hrun : no_underscore_run u) by apply sub_underscore_runs_no_run.
  destruct (str_lstrip_chars_suffix u (lit "_")) as [pre Hpre].
  set (l := str_lstrip_chars u (lit "_")) in *.
  destruct (str_rstrip_chars_prefix l (lit "_")) as [post Hpost].
  set (r := str_rstrip_chars l (lit "_")) in *.
  rewrite Hpre, Hpost in Hsafe, Hrun.
  apply Forall_app in Hsafe as [_ [Hsafe _]%Forall_app].
  apply no_underscore_run_app_r, no_underscore_run_app_l in Hrun.
  split; [done|]. split; [done|]. split.
  - intros Hhead. apply (str_lstrip_chars_head u (lit "_") "_"%char).
    + fold l. rewrite Hpost. by apply head_prefix_of.
    + by apply list_elem_of_singleton.
  - intros Hlast. apply (str_rstrip_chars_last l (lit "_") "_"%char Hlast).
    by apply list_elem_of_singleton.
Qed.

(** X6. sanitize_for_filename returns a clean name: none of the characters
    < > : double quote / \ | ? * is left, no two underscores stand next to
    each other, and the name neither starts nor ends with an underscore. *)
Theorem sanitize_for_filename_clean (text : str) :
  filename_clean (sanitize_for_filename text).
Proof. apply sanitize_for_filename_is_clean. Qed.

(** X7. sanitize_for_filename changes a name exactly when the name is not
    clean; in particular it is idempotent. *)
Theorem sanitize_for_filename_fixpoint (text : str) :
  (sanitize_for_filename text = text ↔ filename_clean text)
  ∧ sanitize_for_filename (sanitize_for_filename text) = sanitize_for_filename text.
Proof.
  assert (Hid : ∀ s, filename_clean s → sanitize_for_filename s = s).
  { intros s (Hsafe & Hrun & Hhead & Hlast).
    unfold sanitize_for_filename, str_strip_chars.
    rewrite sub_unsafe_id by done. rewrite sub_underscore_runs_id by done.
    rewrite str_lstrip_chars_id.
    - apply str_rstrip_chars_id. intros c Hc [= ->]%list_elem_of_singleton. done.
    - intros c Hc [= ->]%list_elem_of_singleton. done. }
  split.
  - split; [|apply Hid]. intros <-. apply sanitize_for_filename_is_clean.
  - apply Hid, sanitize_for_filename_is_clean.
Qed.

(** X8. The file name the transcript fetcher derives from a title has the
    length of the title, cut to 100 characters, holds none of the unsafe
    characters, and keeps every safe character of the first 100 in its
    place. *)
Theorem transcript_sanitize_filename_bounded (title : str) :
  len (_sanitize_filename title) = Z.min (len title) 100
  ∧ Forall (fun c => filename_unsafe c = false) (_sanitize_filename title)
  ∧ (∀ (i : nat) (c : ascii),
       (i < 100)%nat → title !! i = Some c →
       _sanitize_filename title !! i = Some (if filename_unsafe c then "_"%char else c)).
Proof.
  unfold _sanitize_filename.
  assert (Hcut : slice (sub_unsafe title) 0 100 = take 100 (sub_unsafe title)).
  { change 100 with (0 + 100) at 1. rewrite slice_window by lia. by rewrite drop_0. }
  rewrite Hcut. split; [|split].
  - unfold len, sub_unsafe. rewrite length_take, length_map. lia.
  - apply Forall_take, sub_unsafe_safe.
  - intros i c Hi Hc. etrans; [by apply lookup_take_lt|].
    unfold sub_unsafe. etrans; [apply list_lookup_fmap|].
    unfold str in *. by rewrite Hc.
Qed.

(** ** [format_duration] *)

(** X9. For a duration that is not negative, format_duration prints the
    seconds alone below one minute, minutes and seconds below one hour, and
    hours, minutes and seconds from one hour on; the numbers printed are the
    quotient and remainders of the duration, with minutes and seconds below
    60. *)
Theorem format_duration_parts (seconds : Z) :
  0 <= seconds ->
  (seconds < 60 → format_duration seconds = str_of_int seconds ++ lit "s")
  ∧ (60 <= seconds < 3600 →
     format_duration seconds
     = str_of_int (seconds / 60) ++ lit "m " ++ str_of_int (seconds mod 60) ++ lit "s")
  ∧ (3600 <= seconds →
     format_duration seconds
     = str_of_int (seconds / 3600) ++ lit "h " ++ str_of_int (seconds mod 3600 / 60)
       ++ lit "m " ++ str_of_int (seconds mod 60) ++ lit "s")
  ∧ seconds / 3600 * 3600 + seconds mod 3600 / 60 * 60 + seconds mod 60 = seconds
  ∧ 0 <= seconds mod 3600 / 60 < 60
  ∧ 0 <= seconds mod 60 < 60.
Proof.
  intros Hpos. unfold format_duration.
  pose proof (Z.div_mod seconds 3600 ltac:(lia)) as H1.
  pose proof (Z.mod_pos_bound seconds 3600 ltac:(lia)) as H2.
  pose proof (Z.div_mod (seconds mod 3600) 60 ltac:(lia)) as H3.
  pose proof (Z.mod_pos_bound (seconds mod 3600) 60 ltac:(lia)) as H4.
  assert (H5 : (seconds mod 3600) mod 60 = seconds mod 60).
  { transitivity ((seconds mod 3600 + 60 * (seconds / 3600) * 60) mod 60);
      [by rewrite Z.mod_add by lia|].
    f_equal. pose proof (Z.div_mod seconds 3600 ltac:(lia)). lia. }
  pose proof (Z.mod_pos_bound seconds 60 ltac:(lia)) as H6.
  rewrite H5 in *.
  assert (H7 : 0 <= seconds mod 3600 / 60 < 60).
  { split; [apply Z.div_pos; lia | apply Z.div_lt_upper_bound; lia]. }
  split; [|split; [|split]].
  - intros Hlt. rewrite Z.div_small, (Z.mod_small seconds 3600), Z.div_small by lia.
    simpl. by rewrite Z.mod_small by lia.
  - intros [Hge Hlt]. rewrite Z.div_small, (Z.mod_small seconds 3600) by lia.
    simpl (0 >? 0). cbv iota.
    assert (0 < seconds / 60) by (apply Z.div_str_pos; lia).
    by rewrite (proj2 (Z.gtb_gt (seconds / 60) 0)) by lia.
  - intros Hge. assert (0 < seconds / 3600) by (apply Z.div_str_pos; lia).
    by rewrite (proj2 (Z.gtb_gt (seconds / 3600) 0)) by lia.
  - split; [lia | done].
Qed.

Lemma format_duration_parts_witness :
  0 <= 3725
  ∧ (3725 < 60 → format_duration 3725 = str_of_int 3725 ++ lit "s")
  ∧ (60 <= 3725 < 3600 →
     format_duration 3725
     = str_of_int (3725 / 60) ++ lit "m " ++ str_of_int (3725 mod 60) ++ lit "s")
  ∧ (3600 <= 3725 →
     format_duration 3725
     = str_of_int (3725 / 3600) ++ lit "h " ++ str_of_int (3725 mod 3600 / 60)
       ++ lit "m " ++ str_of_int (3725 mod 60) ++ lit "s")
  ∧ 3725 / 3600 * 3600 + 3725 mod 3600 / 60 * 60 + 3725 mod 60 = 3725
  ∧ 0 <= 3725 mod 3600 / 60 < 60
  ∧ 0 <= 3725 mod 60 < 60.
Proof. split; [lia|]. apply (format_duration_parts 3725). lia. Defined.

(** X10. A negative duration is printed without a sign and without hours:
    the text is the one of the duration modulo 3600. *)
Theorem format_duration_negative (seconds : Z) :
  seconds < 0 ->
  format_duration seconds = format_duration (seconds mod 3600).
Proof.
  intros Hneg. unfold format_duration.
  pose proof (Z.mod_pos_bound seconds 3600 ltac:(lia)) as H2.
  assert (H5 : (seconds mod 3600) mod 60 = seconds mod 60).
  { transitivity ((seconds mod 3600 + 60 * (seconds / 3600) * 60) mod 60);
      [by rewrite Z.mod_add by lia|].
    f_equal. pose proof (Z.div_mod seconds 3600 ltac:(lia)). lia. }
  assert (Hh : seconds / 3600 < 0) by (apply Z.div_lt_upper_bound; lia).
  rewrite (Z.gtb_ltb (seconds / 3600)), (proj2 (Z.ltb_ge 0 (seconds / 3600))) by lia.
  rewrite (Z.div_small (seconds mod 3600) 3600) by lia. simpl (0 >? 0). cbv iota.
  by rewrite Z.mod_mod, H5 by lia.
Qed.

Lemma format_duration_negative_witness :
  -1 < 0 ∧ format_duration (-1) = format_duration ((-1) mod 3600).
Proof. split; [lia|]. apply (format_duration_negative (-1)). lia. Defined.

(** ** The chunker and the cleaner together *)

Lemma split_into_chunks_valid_or_raises (text : str) (w o : Z) (chunks : list str) :
  split_into_chunks text w o = Ok chunks -> 0 < w ∧ 0 <= o < w.
Proof.
  unfold split_into_chunks.
  destruct (Z.leb_spec w 0); [done|]. rewrite Z.geb_leb.
  destruct (Z.ltb_spec o 0); [done|]. destruct (Z.leb_spec w o); [done|]. lia.
Qed.

(** X11. split_into_chunks reads the words of the text only: the cleaned
    text gives the same outcome as the text, and every chunk returned is
    itself clean. *)
Theorem split_into_chunks_ignores_spacing (text : str) (window_size overlap : Z) :
  split_into_chunks (clean_text text) window_size overlap
  = split_into_chunks text window_size overlap
  ∧ (∀ chunks c,
       split_into_chunks text window_size overlap = Ok chunks →
       c ∈ chunks → clean_text c = c).
Proof.
  split.
  - unfold split_into_chunks. by rewrite clean_text_split.
  - intros chunks c Hrun [j Hj]%list_elem_of_lookup.
    destruct (split_into_chunks_valid_or_raises _ _ _ _ Hrun) as [Hw Ho].
    destruct (chunk_lookup text _ _ chunks j c Hw Ho Hrun Hj) as [-> _].
    rewrite clean_text_tokens. by rewrite window_tokens by apply str_split_tokens.
Qed.

(** X12. A text of at least one word and at most step = window_size -
    overlap words comes back as one chunk, the cleaned text. *)
Theorem split_into_chunks_short_text (text : str) (window_size overlap : Z) :
  0 <= overlap ->
  0 < count_words text <= window_size - overlap ->
  split_into_chunks text window_size overlap = Ok [clean_text text].
Proof.
  intros Ho Hn. unfold count_words in Hn.
  rewrite split_into_chunks_closed by lia.
  pose proof (ceil_div_spec (len (str_split text)) (window_size - overlap) ltac:(lia)) as Hc.
  assert (ceil_div (len (str_split text)) (window_size - overlap) = 1) as -> by nia.
  simpl. unfold window. rewrite drop_0, take_ge by (unfold len in *; lia).
  by rewrite clean_text_tokens.
Qed.

Lemma split_into_chunks_short_text_witness :
  0 <= 1 ∧ 0 < count_words (lit " hello   world ") <= 5 - 1
  ∧ split_into_chunks (lit " hello   world ") 5 1 = Ok [clean_text (lit " hello   world ")].
Proof.
  split; [lia|]. split; [by vm_compute|].
  apply (split_into_chunks_short_text (lit " hello   world ") 5 1); [lia | by vm_compute].
Defined.

(** X13. No chunk is empty: chunk j has min(window_size, len(tokens) -
    j * step) tokens, at least one. *)
Theorem split_into_chunks_chunk_size (text : str) (window_size overlap : Z)
    (chunks : list str) (j : nat) (c : str) :
  split_into_chunks text window_size overlap = Ok chunks ->
  chunks !! j = Some c ->
  len (str_split c)
  = Z.min window_size (len (str_split text) - Z.of_nat j * (window_size - overlap))
  ∧ 1 <= len (str_split c)
  ∧ c ≠ [].
Proof.
  intros Hrun Hj.
  destruct (split_into_chunks_valid_or_raises _ _ _ _ Hrun) as [Hw Ho].
  destruct (chunk_lookup text _ _ chunks j c Hw Ho Hrun Hj) as [-> Hlt].
  rewrite window_tokens by apply str_split_tokens.
  pose proof (ceil_div_spec (len (str_split text)) (window_size - overlap) ltac:(lia)) as Hc.
  assert (Hlen : len (window (str_split text) (Z.to_nat window_size)
                        (Z.to_nat (window_size - overlap)) j)
                 = Z.min window_size
                     (len (str_split text) - Z.of_nat j * (window_size - overlap))).
  { unfold len in *. rewrite window_length. nia. }
  split; [done|]. split; [unfold len in *; nia|].
  intros Hnil.
  assert (Hzero : len (str_split (str_join (lit " ")
                    (window (str_split text) (Z.to_nat window_size)
                       (Z.to_nat (window_size - overlap)) j))) = 0) by (by rewrite Hnil).
  rewrite window_tokens in Hzero by apply str_split_tokens.
  unfold len in *. nia.
Qed.

Lemma split_into_chunks_chunk_size_witness :
  split_into_chunks (lit "a b c d e") 3 1 = Ok [lit "a b c"; lit "c d e"; lit "e"]
  ∧ [lit "a b c"; lit "c d e"; lit "e"] !! 2%nat = Some (lit "e")
  ∧ len (str_split (lit "e"))
    = Z.min 3 (len (str_split (lit "a b c d e")) - Z.of_nat 2 * (3 - 1))
  ∧ 1 <= len (str_split (lit "e"))
  ∧ lit "e" ≠ [].
Proof.
  split; [by vm_compute|]. split; [done|].
  apply (split_into_chunks_chunk_size (lit "a b c d e") 3 1
           [lit "a b c"; lit "c d e"; lit "e"] 2 (lit "e")); by vm_compute.
Defined.

(** ** The JSON3 parser *)

Lemma for_in_raises {A B : Type} (body : B -> A -> result B) (xs ys : list A) (x : A)
    (acc : B) :
  (∀ acc, ∃ e, body acc x = Raise e) ->
  ∃ e, for_in (xs ++ x :: ys) acc body = Raise e.
Proof.
  intros Hx. revert acc. induction xs as [|x' xs IH]; intros acc; simpl.
  - destruct (Hx acc) as [e ->]. by exists e.
  - destruct (body acc x') as [acc'|e]; simpl; [apply IH | by exists e].
Qed.

Section Json3Facts.

Variable json_loads : str -> result json.

(** X14. The JSON3 parser never raises, and it returns the empty string
    when the text is not JSON or when the JSON is anything but a list: a
    document that wraps its events in an object gives no text. *)
Theorem parse_json3_subtitles_total (json3_text : str) :
  (∃ text, _parse_json3_subtitles json_loads json3_text = Ok text)
  ∧ (∀ e, json_loads json3_text = Raise e →
          _parse_json3_subtitles json_loads json3_text = Ok [])
  ∧ (∀ data, json_loads json3_text = Ok data →
             (∀ items, data ≠ JList items) →
             _parse_json3_subtitles json_loads json3_text = Ok []).
Proof.
  unfold _parse_json3_subtitles, try_result. split; [|split].
  - match goal with |- ∃ _, match ?b with _ => _ end = _ => destruct b end; eauto.
  - intros e ->. done.
  - intros data -> Hdata. simpl. destruct data; try done. by destruct (Hdata items).
Qed.

Lemma json3_segments_loop (texts : list str) (lines : list str) :
  for_in (map (fun t => JDict [(lit "text", JStr t)]) texts) lines
    (fun lines seg =>
       match seg with
       | JDict fields =>
           let text := dict_get fields (lit "text") (JStr []) in
           if json_truthy text then
             stripped ← json_strip text; mret (lines ++ [stripped])
           else mret lines
       | _ => mret lines
       end)
  = Ok (lines ++ map str_strip (List.filter truthy texts)).
Proof.
  revert lines. induction texts as [|t texts IH]; intros lines; simpl.
  - by rewrite app_nil_r.
  - destruct (truthy t) eqn:Ht; simpl; rewrite IH; [by rewrite <- app_assoc | done].
Qed.

(** X15. On a list of caption events whose segments all carry a string, the
    parser returns the non-empty segment texts, each trimmed, in order and
    joined by single spaces; a segment of white space is not empty, and stays
    as an empty string between two spaces. *)
Theorem parse_json3_subtitles_events (json3_text : str) (events : list (list str)) :
  json_loads json3_text = Ok (JList (map json3_event events)) ->
  _parse_json3_subtitles json_loads json3_text
  = Ok (str_join (lit " ") (map str_strip (List.filter truthy (concat events)))).
Proof.
  intros Hload. unfold _parse_json3_subtitles, try_result. rewrite Hload. simpl.
  assert (Hloop : ∀ lines,
            for_in (map json3_event events) lines
              (fun lines item =>
                 match item with
                 | JDict fields =>
                     let segs := dict_get fields (lit "segs") (JList []) in
                     segs ← json_iter segs;
                     for_in segs lines (fun lines seg =>
                       match seg with
                       | JDict fields =>
                           let text := dict_get fields (lit "text") (JStr []) in
                           if json_truthy text then
                             stripped ← json_strip text; mret (lines ++ [stripped])
                           else mret lines
                       | _ => mret lines
                       end)
                 | _ => mret lines
                 end)
            = Ok (lines ++ map str_strip (List.filter truthy (concat events)))).
  { clear Hload. induction events as [|texts events IH]; intros lines; simpl.
    - by rewrite app_nil_r.
    - rewrite json3_segments_loop. simpl. rewrite IH.
      by rewrite List.filter_app, map_app, <- app_assoc. }
  by rewrite Hloop.
Qed.

(** X16. One segment whose text is not a string and not false (a number,
    a list, ...) costs the whole transcript: the parser returns the empty
    string, whatever the other events hold. *)
Theorem parse_json3_subtitles_poisoned (json3_text : str)
    (before after : list json) (fields : list (str * json))
    (segs_before segs_after : list json) (seg_fields : list (str * json)) (text : json) :
  json_loads json3_text = Ok (JList (before ++ JDict fields :: after)) ->
  dict_get fields (lit "segs") (JList []) = JList (segs_before ++ JDict seg_fields :: segs_after) ->
  dict_get seg_fields (lit "text") (JStr []) = text ->
  json_truthy text = true ->
  (∀ s, text ≠ JStr s) ->
  _parse_json3_subtitles json_loads json3_text = Ok [].
Proof.
  intros Hload Hsegs Htext Htrue Hnot. unfold _parse_json3_subtitles, try_result.
  rewrite Hload. simpl.
  match goal with |- context [for_in ?xs ?acc ?body] =>
    destruct (for_in_raises body before after (JDict fields) acc) as [e ->]; [|done]
  end.
  intros acc. simpl in Hsegs. cbv zeta. rewrite Hsegs. simpl.
  match goal with |- context [for_in ?xs ?acc ?body] =>
    apply (for_in_raises body segs_before segs_after (JDict seg_fields) acc)
  end.
  intros acc'. simpl in Htext. cbv zeta. rewrite Htext, Htrue.
  destruct text; try done; simpl; eauto.
  by destruct (Hnot s).
Qed.

End Json3Facts.

Lemma parse_json3_subtitles_events_witness :
  (fun _ : str => Ok (JList (map json3_event [[lit "hello"; lit " world "]; [lit ""]])))
    (lit "[...]")
  = Ok (JList (map json3_event [[lit "hello"; lit " world "]; [lit ""]]))
  ∧ _parse_json3_subtitles
      (fun _ => Ok (JList (map json3_event [[lit "hello"; lit " world "]; [lit ""]])))
      (lit "[...]")
    = Ok (str_join (lit " ")
            (map str_strip
               (List.filter truthy (concat [[lit "hello"; lit " world "]; [lit ""]])))).
Proof.
  split; [done|].
  by apply (parse_json3_subtitles_events
              (fun _ => Ok (JList (map json3_event [[lit "hello"; lit " world "]; [lit ""]])))
              (lit "[...]") [[lit "hello"; lit " world "]; [lit ""]]).
Defined.

Lemma parse_json3_subtitles_poisoned_witness :
  (fun _ : str =>
     Ok (JList ([json3_event [lit "hello"]]
                ++ JDict [(lit "segs", JList ([] ++ JDict [(lit "text", JInt 5)] :: []))]
                   :: []))) (lit "[...]")
  = Ok (JList ([json3_event [lit "hello"]]
               ++ JDict [(lit "segs", JList ([] ++ JDict [(lit "text", JInt 5)] :: []))]
                  :: []))
  ∧ _parse_json3_subtitles
      (fun _ : str =>
         Ok (JList ([json3_event [lit "hello"]]
                    ++ JDict [(lit "segs", JList ([] ++ JDict [(lit "text", JInt 5)] :: []))]
                       :: []))) (lit "[...]")
    = Ok [].
Proof.
  split; [done|].
  by apply (parse_json3_subtitles_poisoned _ (lit "[...]") [json3_event [lit "hello"]] []
              [(lit "segs", JList ([] ++ JDict [(lit "text", JInt 5)] :: []))]
              [] [] [(lit "text", JInt 5)] (JInt 5)).
Defined.

(** ** The caption normalizer: the shape of its output *)

Lemma split_on_char_pieces (c : ascii) (s cur : str) :
  c ∉ cur -> Forall (fun piece => c ∉ piece) (split_on c [] s cur).
Proof.
  revert cur. induction s as [|x s IH]; intros cur Hcur.
  - rewrite split_on_nil. by repeat constructor.
  - rewrite split_on_cons. simpl startswith. simpl length. rewrite drop_0.
    destruct (decide (c = x)) as [->|Hne].
    + constructor; [done|]. apply IH. by apply not_elem_of_nil.
    + apply IH. rewrite elem_of_app, list_elem_of_singleton. by intros [?|?].
Qed.

Lemma str_lstrip_Forall (P : ascii -> Prop) (s : str) : Forall P s -> Forall P (str_lstrip s).
Proof.
  induction 1 as [|c s Hc Hs IH]; [done|]. simpl. destruct (isspace c); [done|].
  by constructor.
Qed.

Lemma str_strip_Forall (P : ascii -> Prop) (s : str) : Forall P s -> Forall P (str_strip s).
Proof.
  intros H. unfold str_strip, str_rstrip.
  apply Forall_rev, str_lstrip_Forall, Forall_rev, str_lstrip_Forall, H.
Qed.

Lemma str_join_Forall (P : ascii -> Prop) (sep : str) (xs : list str) :
  Forall P sep -> Forall (Forall P) xs -> Forall P (str_join sep xs).
Proof.
  intros Hsep. induction 1 as [|x xs Hx Hxs IH]; [done|].
  destruct xs as [|y xs]; [done|]. rewrite str_join_cons.
  apply Forall_app. split; [done|]. apply Forall_app. by split.
Qed.

Lemma str_lstrip_head (s : str) (c : ascii) :
  head (str_lstrip s) = Some c -> isspace c = false.
Proof.
  induction s as [|x s IH]; [done|]. simpl. destruct (isspace x) eqn:E; [done|].
  by intros [= <-].
Qed.

Lemma str_rstrip_last (s : str) (c : ascii) :
  last (str_rstrip s) = Some c -> isspace c = false.
Proof.
  induction s as [|x s IH] using rev_ind; [done|]. rewrite str_rstrip_snoc.
  destruct (isspace x) eqn:E; [done|]. rewrite last_snoc. by intros [= <-].
Qed.

Lemma str_rstrip_prefix (s : str) : ∃ post, s = str_rstrip s ++ post.
Proof.
  induction s as [|x s [post IH]] using rev_ind; [by exists []|].
  rewrite str_rstrip_snoc. destruct (isspace x).
  - exists (post ++ [x]). rewrite app_assoc. by f_equal.
  - exists []. by rewrite app_nil_r.
Qed.

(** A trimmed string that is not empty starts and ends with a character
    that is not white space. *)
Lemma str_strip_ends (s : str) (c : ascii) :
  (head (str_strip s) = Some c → isspace c = false)
  ∧ (last (str_strip s) = Some c → isspace c = false).
Proof.
  unfold str_strip. split; [|apply str_rstrip_last].
  intros Hhead. apply (str_lstrip_head s).
  destruct (str_rstrip_prefix (str_lstrip s)) as [post Hpost].
  rewrite Hpost. by apply head_prefix_of.
Qed.

Lemma str_strip_id (s : str) :
  (∀ c, head s = Some c → isspace c = false) ->
  (∀ c, last s = Some c → isspace c = false) ->
  str_strip s = s.
Proof.
  intros Hhead Hlast. unfold str_strip.
  assert (Hl : str_lstrip s = s).
  { destruct s as [|c s]; [done|]. simpl. by rewrite (Hhead c). }
  rewrite Hl. destruct s as [|c s _] using rev_ind; [done|].
  rewrite str_rstrip_snoc. by rewrite (Hlast c) by (by rewrite last_snoc).
Qed.

Lemma str_join_head (sep x : str) (xs : list str) (c : ascii) :
  x ≠ [] -> head (str_join sep (x :: xs)) = Some c -> head x = Some c.
Proof. intros Hx. destruct xs; [done|]. rewrite str_join_cons. by destruct x. Qed.

Lemma str_join_last (sep : str) (xs : list str) (c : ascii) :
  Forall (fun x => x ≠ []) xs ->
  last (str_join sep xs) = Some c -> ∃ x, last xs = Some x ∧ last x = Some c.
Proof.
  induction 1 as [|x xs Hx Hxs IH]; [done|].
  destruct xs as [|y xs]; [by exists x|]. rewrite str_join_cons.
  intros Hlast. unfold str in *.
  destruct (str_join sep (y :: xs)) as [|z zs] eqn:Hj.
  - assert (Hy : y ≠ []) by (by apply Forall_inv in Hxs).
    destruct xs; simpl in Hj; [done|]. by destruct y.
  - rewrite app_assoc, last_app_cons in Hlast.
    destruct (IH Hlast) as (x' & Hx' & Hc). by exists x'.
Qed.

(** X17. The caption normalizer never raises, and its result is one trimmed
    line: it holds no line feed and has no white space at either end. *)
Theorem parse_srt_subtitles_single_line (srt_text : str) :
  ∃ text,
    _parse_srt_subtitles srt_text = Ok text
    ∧ (LF ∉ text)
    ∧ str_strip text = text.
Proof.
  exists (srt_normalized srt_text). split; [apply _parse_srt_subtitles_normalized|].
  unfold srt_normalized.
  set (lines := flat_map _ _).
  assert (Hlines : Forall (fun l => (LF ∉ l) ∧ l ≠ [] ∧ str_strip l = l) lines).
  { apply Forall_flat_map, Forall_forall. intros block _.
    apply Forall_map, Forall_forall. intros line [Hin Hkeep]%list_elem_of_In%filter_In.
    simpl. apply andb_prop in Hkeep as [Hblank _]. unfold srt_blank in Hblank.
    rewrite negb_involutive in Hblank.
    assert (Hline : LF ∉ line).
    { unfold srt_block_lines in Hin.
      pose proof (split_on_char_pieces LF (str_strip block) [] ltac:(apply not_elem_of_nil))
        as Hpieces.
      rewrite Forall_forall in Hpieces. apply Hpieces.
      apply list_elem_of_In in Hin.
      destruct (2 <? _)%nat; [|done]. by apply (subseteq_drop 2). }
    split; [|split].
    - pose proof (str_strip_Forall (fun c => c ≠ LF) line) as H.
      rewrite !Forall_forall in H. intros Hc. apply (H ltac:(by intros c Hc' ->) LF Hc eq_refl).
    - by destruct (str_strip line).
    - apply str_strip_id; intros c Hc.
      + destruct (str_strip_ends line c) as [Hends _]. by apply Hends.
      + destruct (str_strip_ends line c) as [_ Hends]. by apply Hends. }
  split.
  - assert (H : Forall (fun c => c ≠ LF) (str_join (lit " ") lines)).
    { apply str_join_Forall; [by repeat constructor|].
      eapply Forall_impl; [exact Hlines|]. intros l (Hl & _ & _).
      apply Forall_forall. by intros c Hc ->. }
    rewrite Forall_forall in H. intros Hc. by apply (H LF Hc).
  - apply str_strip_id.
    + intros c Hc. destruct lines as [|l lines']; [done|].
      apply Forall_inv in Hlines as (_ & Hne & Hstrip).
      apply str_join_head in Hc; [|done]. rewrite <- Hstrip in Hc.
      destruct (str_strip_ends l c) as [Hends _]. by apply Hends.
    + intros c Hc. apply str_join_last in Hc as (l & Hl & Hc).
      * apply last_Some_elem_of in Hl. rewrite Forall_forall in Hlines.
        destruct (Hlines l Hl) as (_ & _ & Hstrip). rewrite <- Hstrip in Hc.
        destruct (str_strip_ends l c) as [_ Hends]. by apply Hends.
      * eapply Forall_impl; [exact Hlines|]. by intros l (_ & Hne & _).
Qed.

(** ** The pipeline object and the registry, on any backend *)

Section PipelineFacts.

Context {W : Type} {B : Backend W}.

Lemma get_vectorstore_hit (p : RAGPipeline) (w : W) (v : vectorstore) :
  _vectorstore p = Some v -> get_vectorstore (p, w) = (Ok v, (p, w)).
Proof.
  intros H. unfold get_vectorstore, mbind, M_bind, self, mret, M_ret. simpl. by rewrite H.
Qed.

(** X18. The store is opened once: when the property [vectorstore] has
    returned a store, the object keeps it, the identity of the pipeline is
    untouched, and the next access returns the same store without a call
    into the backend (the world stays as it is). *)
Theorem vectorstore_opened_once (p p' : RAGPipeline) (w w' : W) (v : vectorstore) :
  get_vectorstore (p, w) = (Ok v, (p', w')) ->
  _vectorstore p' = Some v
  ∧ settings p' = settings p
  ∧ persona_name p' = persona_name p
  ∧ collection_name p' = collection_name p
  ∧ get_vectorstore (p', w') = (Ok v, (p', w')).
Proof.
  intros H.
  assert (Hp : _vectorstore p' = Some v ∧ settings p' = settings p
               ∧ persona_name p' = persona_name p ∧ collection_name p' = collection_name p).
  { revert H.
    unfold get_vectorstore, _create_vectorstore, embeddings, mbind, M_bind, mret, M_ret,
      self, set_self, call. simpl.
    destruct (_vectorstore p) as [v0|] eqn:Hv0; [by intros [= <- <- <-]|]. simpl.
    destruct (PersistentClient _ w) as [[c|?] w1]; [|done]. simpl.
    destruct (_embeddings p) as [e|] eqn:He; simpl.
    - destruct (Chroma c _ e w1) as [[v1|?] w2]; [|done]. simpl. by intros [= <- <- <-].
    - destruct (SentenceTransformerEmbeddings _ w1) as [[e|?] w2]; [|done]. simpl.
      destruct (Chroma c _ e w2) as [[v1|?] w3]; [|done]. simpl. by intros [= <- <- <-]. }
  destruct Hp as (Hv & Hs & Hn & Hc). repeat split; try done.
  by apply get_vectorstore_hit.
Qed.

(** X21. What [list_personas] returns, whatever the directory holds: no
    name has an underscore in it, so a persona whose name has one is never
    listed under its name; and when the storage directory does not exist the
    list is empty and the directory is not read. *)
Theorem list_personas_names (st : Settings) (w w' : W) (names : list str) :
  list_personas st w = (Ok names, w') ->
  Forall (fun name => "_"%char ∉ name) names
  ∧ (∀ persona, "_"%char ∈ persona → persona ∉ names)
  ∧ (∀ w1, path_exists (get_chroma_path st) w = (Ok false, w1) → names = [] ∧ w' = w1).
Proof.
  intros H.
  assert (Hnames : Forall (fun name => "_"%char ∉ name) names).
  { revert H. unfold list_personas, mbind, M_bind, mret, M_ret.
    destruct (path_exists _ w) as [[[]|?] w1]; simpl; [| by intros [= <- _] | done].
    destruct (path_iterdir _ w1) as [[items|?] w2]; [|done]. intros [= <- _].
    rewrite (fold_left_filter_map
               (fun item : str * bool => item.2 && startswith (lit "persona_") item.1)
               (fun item => str_replace (str_replace item.1 (lit "persona_") (lit ""))
                                        (lit "_") (lit " "))).
    rewrite app_nil_l. apply Forall_map, Forall_forall. intros item _. cbv beta.
    change (lit "_") with ["_"%char]. change (lit " ") with [" "%char].
    rewrite (str_replace_char "_" " "). rewrite list_elem_of_fmap.
    intros (x & Hx & _). by destruct (decide (x = "_"%char)). }
  split; [done|]. split.
  - intros persona Hin Hlisted. rewrite Forall_forall in Hnames.
    by apply (Hnames persona Hlisted).
  - intros w1 Hmissing. revert H. unfold list_personas, mbind, M_bind, mret, M_ret.
    rewrite Hmissing. simpl. by intros [= <- <-].
Qed.

End PipelineFacts.

(** ** The collection and the metadata file of a persona *)

Lemma underscore_tolower_inj (c d : ascii) :
  underscore c = underscore d -> tolower c = tolower d -> c = d.
Proof.
  unfold underscore. destruct (decide (c = " "%char)) as [->|Hc];
    destruct (decide (d = " "%char)) as [->|Hd]; try done.
  - intros <-. by vm_compute.
  - intros ->. by vm_compute.
Qed.

Lemma map_underscore_tolower_inj (a b : str) :
  map underscore a = map underscore b -> map tolower a = map tolower b -> a = b.
Proof.
  revert b. induction a as [|c a IH]; intros [|d b]; try done. simpl.
  intros [= Hu Hus] [= Hl Hls]. f_equal; [by apply underscore_tolower_inj | by apply IH].
Qed.

(** ** The pipeline on the disk *)

Lemma range_len {A : Type} (l : list A) :
  range_loop 0 (len l) 1 = map Z.of_nat (seq 0 (length l)).
Proof.
  rewrite range_loop_up by lia. unfold ceil_div, len.
  replace (Z.of_nat (length l) - 0 + 1 - 1) with (Z.of_nat (length l)) by lia.
  rewrite Z.div_1_r, Nat2Z.id. apply map_ext. intros j. lia.
Qed.

Lemma zip_with_seq_imap {A B C : Type} (f : A -> B -> C) (h : nat -> B) (l : list A) (k : nat) :
  zip_with f l (map h (seq k (length l))) = imap (fun i x => f x (h (k + i)%nat)) l.
Proof.
  revert k. induction l as [|x l IH]; intros k; [done|]. simpl.
  rewrite Nat.add_0_r. f_equal. rewrite IH. apply imap_ext. intros i y _. simpl.
  f_equal. f_equal. lia.
Qed.

Section DiskPipeline.

Variable valid_name : str -> bool.
Variable distance : str -> str -> Z.
Variable splitter : Z -> Z -> str -> list str.

(** Opening the store of a new pipeline whose collection name is accepted. *)
Lemma disk_vectorstore_opened (st : Settings) (persona : str) (w : World) :
  online w = true ->
  valid_name (RAGPipeline_collection_name persona None) = true ->
  ∃ w',
    get_vectorstore (B := disk_backend valid_name distance splitter)
      (RAGPipeline_init st persona None, w)
    = (Ok (pipeline_store st persona), (opened valid_name distance splitter st persona, w'))
    ∧ online w' = true
    ∧ stored w' (pipeline_store st persona)
      = Some (default [] (stored w (pipeline_store st persona)))
    ∧ (∀ c', c' ≠ (pipeline_store st persona).1 → dbs w' !! c' = dbs w !! c')
    ∧ files w' = files w.
Proof.
  intros Hon Hname.
  destruct (disk_open valid_name w (pipeline_store st persona).1
              (pipeline_store st persona).2 (embedding_model st) Hon Hname)
    as (w1 & w2 & Hc & Hch & Hon2 & Hst & Hother & Hfiles).
  exists w2. split; [|done].
  unfold get_vectorstore, _create_vectorstore, embeddings, mbind, M_bind, mret, M_ret,
    self, set_self, call. simpl.
  simpl in Hc, Hch. rewrite Hc. simpl. rewrite Hch. done.
Qed.

(** Opening the store of a new pipeline whose collection name is refused:
    the client has made the directory of the database when [Chroma] raises. *)
Lemma disk_vectorstore_refused (st : Settings) (persona : str) (w : World) :
  online w = true ->
  valid_name (RAGPipeline_collection_name persona None) = false ->
  ∃ p' w',
    get_vectorstore (B := disk_backend valid_name distance splitter)
      (RAGPipeline_init st persona None, w)
    = (Raise (invalid_name (RAGPipeline_collection_name persona None)), (p', w'))
    ∧ online w' = true
    ∧ is_Some (dbs w' !! (pipeline_store st persona).1)
    ∧ (∀ c', c' ≠ (pipeline_store st persona).1 → dbs w' !! c' = dbs w !! c')
    ∧ files w' = files w.
Proof.
  intros Hon Hname.
  destruct (disk_client_run w (pipeline_store st persona).1 Hon)
    as (w1 & Hc & Hon1 & Hf1 & Hdb1 & Ho1).
  eexists _, w1. split; [|split; [done|split; [by rewrite Hdb1|done]]].
  unfold get_vectorstore, _create_vectorstore, embeddings, mbind, M_bind, mret, M_ret,
    self, set_self, call. simpl.
  simpl in Hc. rewrite Hc. simpl.
  unfold disk_Chroma, on_disk. rewrite Hon1.
  simpl in Hname. rewrite Hname. simpl. reflexivity.
Qed.

(** Adding a batch that is not empty to a collection that is there. *)
Lemma disk_add_texts_run (w : World) (v : Path * str) (docs : list Document)
    (texts : list str) (metadatas : list (gmap str pyval)) :
  online w = true ->
  texts ≠ [] ->
  stored w v = Some docs ->
  ∃ w',
    disk_add_texts v texts metadatas w = (Ok tt, w')
    ∧ online w' = true
    ∧ stored w' v
      = Some (docs ++ zip_with (fun t m => {| page_content := t; metadata := m |})
                               texts metadatas)
    ∧ (∀ c', c' ≠ v.1 → dbs w' !! c' = dbs w !! c')
    ∧ files w' = files w.
Proof.
  intros Hon Htexts Hdocs. unfold disk_add_texts, on_disk. rewrite Hon.
  destruct texts as [|t texts]; [done|]. rewrite Hdocs.
  eexists. split; [done|]. split; [done|]. split; [|split; [|done]].
  - unfold stored. simpl. rewrite lookup_insert_eq. simpl. by rewrite lookup_insert_eq.
  - intros c' Hc'. simpl. by rewrite lookup_insert_ne.
Qed.

Lemma chunk_documents_zip (source persona : str) (chunks : list str) :
  zip_with (fun t m => {| page_content := t; metadata := m |}) chunks
    (map (chunk_metadata source persona) (range_loop 0 (len chunks) 1))
  = chunk_documents source persona chunks.
Proof.
  rewrite range_len, map_map.
  by rewrite (zip_with_seq_imap _ (fun j => chunk_metadata source persona (Z.of_nat j))
                chunks 0).
Qed.

(** How [add_text] runs through a new pipeline when the store accepts the
    name and the splitter gives at least one chunk. *)
Lemma disk_add_text_run (st : Settings) (persona text source : str) (w : World) :
  online w = true ->
  valid_name (RAGPipeline_collection_name persona None) = true ->
  splitter (chunk_size st) (chunk_overlap st) text ≠ [] ->
  ∃ w',
    add_text (B := disk_backend valid_name distance splitter) text source
      (RAGPipeline_init st persona None, w)
    = (Ok (len (splitter (chunk_size st) (chunk_overlap st) text)),
       (opened valid_name distance splitter st persona, w'))
    ∧ stored w' (pipeline_store st persona)
      = Some (default [] (stored w (pipeline_store st persona))
              ++ chunk_documents source persona
                   (splitter (chunk_size st) (chunk_overlap st) text))
    ∧ (∀ c', c' ≠ (pipeline_store st persona).1 → dbs w' !! c' = dbs w !! c')
    ∧ files w' = files w
    ∧ online w' = true.
Proof.
  intros Hon Hname Hchunks.
  destruct (disk_open valid_name w (pipeline_store st persona).1 (pipeline_store st persona).2
              (embedding_model st) Hon Hname)
    as (w1 & w2 & Hc & Hch & Hon2 & Hst & Hother & Hfiles).
  set (chunks := splitter (chunk_size st) (chunk_overlap st) text) in *.
  destruct (disk_add_texts_run w2 (pipeline_store st persona) _ chunks
              (map (chunk_metadata source persona) (range_loop 0 (len chunks) 1))
              Hon2 Hchunks Hst)
    as (w3 & Hadd & Hon3 & Hst3 & Ho3 & Hf3).
  exists w3. split; [|split; [|split; [|split]]].
  - unfold add_text, get_vectorstore, _create_vectorstore, embeddings, mbind, M_bind,
      mret, M_ret, self, set_self, call.
    simpl. simpl in Hc, Hch. rewrite Hc. simpl. rewrite Hch. simpl.
    match goal with
    | |- context [disk_add_texts ?v ?t ?m w2] =>
        change (disk_add_texts v t m w2)
          with (disk_add_texts (pipeline_store st persona) chunks
                  (map (chunk_metadata source persona) (range_loop 0 (len chunks) 1)) w2)
    end.
    rewrite Hadd. done.
  - by rewrite Hst3, chunk_documents_zip.
  - intros c' Hc'. by rewrite Ho3, Hother.
  - by rewrite Hf3.
  - done.
Qed.

(** How [add_text] ends, whatever the name and the text: the disk can still
    be reached, and only the database of the pipeline may have changed. *)
Lemma disk_add_text_frame (st : Settings) (persona text source : str) (w : World) :
  online w = true ->
  ∃ r p' w',
    add_text (B := disk_backend valid_name distance splitter) text source
      (RAGPipeline_init st persona None, w) = (r, (p', w'))
    ∧ online w' = true
    ∧ (∀ c', c' ≠ (pipeline_store st persona).1 → dbs w' !! c' = dbs w !! c')
    ∧ files w' = files w
    ∧ (valid_name (RAGPipeline_collection_name persona None) = false → ∃ e, r = Raise e)
    ∧ (splitter (chunk_size st) (chunk_overlap st) text = [] → ∃ e, r = Raise e).
Proof.
  intros Hon.
  destruct (valid_name (RAGPipeline_collection_name persona None)) eqn:Hname.
  - destruct (splitter (chunk_size st) (chunk_overlap st) text) as [|t ts] eqn:Hchunks.
    + destruct (disk_open valid_name w (pipeline_store st persona).1
                  (pipeline_store st persona).2 (embedding_model st) Hon Hname)
        as (w1 & w2 & Hc & Hch & Hon2 & Hst & Hother & Hfiles).
      exists (Raise no_texts), (opened valid_name distance splitter st persona), w2.
      split; [|split; [done|split; [done|split; [done|split; [done|by eexists]]]]].
      unfold add_text, get_vectorstore, _create_vectorstore, embeddings, mbind, M_bind,
        mret, M_ret, self, set_self, call.
      simpl. rewrite Hchunks. simpl in Hc, Hch. rewrite Hc. simpl. rewrite Hch. simpl.
      unfold disk_add_texts, on_disk. by rewrite Hon2.
    + destruct (disk_add_text_run st persona text source w Hon Hname)
        as (w' & Hrun & _ & Hother & Hfiles & Hon'); [by rewrite Hchunks|].
      rewrite Hchunks in Hrun.
      eexists _, _, w'. split; [exact Hrun|]. by repeat split.
  - destruct (disk_client_run w (pipeline_store st persona).1 Hon)
      as (w1 & Hc & Hon1 & Hf1 & Hdb1 & Ho1).
    eexists (Raise (invalid_name (RAGPipeline_collection_name persona None))), _, w1.
    split; [|split; [done|split; [done|split; [done|split; [by eexists|by eexists]]]]].
    unfold add_text, get_vectorstore, _create_vectorstore, embeddings, mbind, M_bind,
      mret, M_ret, self, set_self, call.
    simpl. simpl in Hc. rewrite Hc. simpl.
    unfold disk_Chroma, on_disk. rewrite Hon1.
    simpl in Hname. rewrite Hname. simpl. reflexivity.
Qed.

(** X19. On a disk that can be reached, [add_text] through a new pipeline
    succeeds exactly when the store accepts the collection name of the
    persona and the splitter cuts the text into at least one chunk. It then
    returns the number of chunks and appends them, in order, to the documents
    the collection already had; chunk [i] carries the source, its number [i]
    and the persona name; no other database and no file changes, and the
    pipeline keeps the opened store. When the name is refused, or the
    splitter gives no chunk, [add_text] raises. *)
Theorem add_text_appends_chunks (st : Settings) (persona text source : str) (w : World) :
  online w = true ->
  (valid_name (RAGPipeline_collection_name persona None) = true →
   splitter (chunk_size st) (chunk_overlap st) text ≠ [] →
   ∃ w',
     add_text (B := disk_backend valid_name distance splitter) text source
       (RAGPipeline_init st persona None, w)
     = (Ok (len (splitter (chunk_size st) (chunk_overlap st) text)),
        (opened valid_name distance splitter st persona, w'))
     ∧ stored w' (pipeline_store st persona)
       = Some (default [] (stored w (pipeline_store st persona))
               ++ chunk_documents source persona
                    (splitter (chunk_size st) (chunk_overlap st) text))
     ∧ (∀ c', c' ≠ (pipeline_store st persona).1 → dbs w' !! c' = dbs w !! c')
     ∧ files w' = files w
     ∧ online w' = true)
  ∧ (valid_name (RAGPipeline_collection_name persona None) = false
     ∨ splitter (chunk_size st) (chunk_overlap st) text = [] →
     ∃ e s',
       add_text (B := disk_backend valid_name distance splitter) text source
         (RAGPipeline_init st persona None, w) = (Raise e, s')).
Proof.
  intros Hon. split; [by apply disk_add_text_run|].
  intros Hbad.
  destruct (disk_add_text_frame st persona text source w Hon)
    as (r & p' & w' & Hrun & _ & _ & _ & Hname & Hchunks).
  destruct Hbad as [Hbad|Hbad]; [apply Hname in Hbad | apply Hchunks in Hbad];
    destruct Hbad as [e ->]; by exists e, (p', w').
Qed.

End DiskPipeline.

Lemma add_text_appends_chunks_witness :
  online empty_world = true
  ∧ chroma_name_rule (RAGPipeline_collection_name (lit "Alice") None) = true
  ∧ whole_text (chunk_size default_settings) (chunk_overlap default_settings)
      (lit "hello world") ≠ []
  ∧ ∃ w',
      add_text (B := simple_disk) (lit "hello world") (lit "manual")
        (RAGPipeline_init default_settings (lit "Alice") None, empty_world)
      = (Ok 1, (opened chroma_name_rule length_distance whole_text default_settings
                  (lit "Alice"), w'))
      ∧ stored w' (pipeline_store default_settings (lit "Alice"))
        = Some (chunk_documents (lit "manual") (lit "Alice") [lit "hello world"]).
Proof.
  assert (Hname : chroma_name_rule (RAGPipeline_collection_name (lit "Alice") None) = true)
    by (vm_compute; reflexivity).
  assert (Hchunks : whole_text (chunk_size default_settings) (chunk_overlap default_settings)
                      (lit "hello world") ≠ []) by discriminate.
  split; [reflexivity|]. split; [exact Hname|]. split; [exact Hchunks|].
  destruct (proj1 (add_text_appends_chunks chroma_name_rule length_distance whole_text
                     default_settings (lit "Alice") (lit "hello world") (lit "manual")
                     empty_world eq_refl) Hname Hchunks)
    as (w' & Hrun & Hst & _).
  exists w'. split; [exact Hrun | exact Hst].
Defined.

Section DiskStats.

Variable valid_name : str -> bool.
Variable distance : str -> str -> Z.
Variable splitter : Z -> Z -> str -> list str.

Lemma disk_count_run (w : World) (v : Path * str) (docs : list Document) :
  online w = true -> stored w v = Some docs -> disk_count v w = (Ok (len docs), w).
Proof. intros Hon Hdocs. unfold disk_count, on_disk. by rewrite Hon, Hdocs. Qed.

(** The statistics through a pipeline that has opened its store. *)
Lemma disk_stats_opened (st : Settings) (persona : str) (w : World) (docs : list Document) :
  online w = true ->
  stored w (pipeline_store st persona) = Some docs ->
  get_collection_stats (opened valid_name distance splitter st persona, w)
  = (Ok {| stats_persona := persona;
           stats_collection_name := RAGPipeline_collection_name persona None;
           document_count := len docs |},
     (opened valid_name distance splitter st persona, w)).
Proof.
  intros Hon Hdocs.
  unfold get_collection_stats, try_except, get_vectorstore, mbind, M_bind, mret, M_ret,
    self, call.
  cbn [fst snd _vectorstore opened collection_count disk_backend persona_name collection_name].
  by rewrite (disk_count_run w _ docs Hon Hdocs).
Qed.

(** The statistics through a new pipeline. *)
Lemma disk_stats_new (st : Settings) (persona : str) (w : World) :
  online w = true ->
  valid_name (RAGPipeline_collection_name persona None) = true ->
  (get_collection_stats (B := disk_backend valid_name distance splitter)
     (RAGPipeline_init st persona None, w)).1
  = Ok {| stats_persona := persona;
          stats_collection_name := RAGPipeline_collection_name persona None;
          document_count := len (default [] (stored w (pipeline_store st persona))) |}.
Proof.
  intros Hon Hname.
  destruct (disk_vectorstore_opened valid_name distance splitter st persona w Hon Hname)
    as (w1 & Hv & Hon1 & Hst1 & _).
  unfold get_collection_stats, try_except.
  unfold mbind at 1, M_bind at 1, self. cbn [fst snd].
  unfold mbind at 1, M_bind at 1. rewrite Hv.
  unfold mbind at 1, M_bind at 1. rewrite call_run. cbn [fst snd].
  change (collection_count (Backend := disk_backend valid_name distance splitter)) with disk_count.
  by rewrite (disk_count_run w1 _ _ Hon1 Hst1).
Qed.

(** X20. On a disk that can be reached the statistics count what was added.
    When the store accepts the collection name of the persona and the
    splitter cuts the text into at least one chunk, [add_text] succeeds, the
    same pipeline then reports the documents the collection had plus the
    chunks just added, and reading the statistics changes nothing; a new
    pipeline for any name with the same collection key (the same name in
    another letter case, say) reports the same count under its own name. *)
Theorem collection_stats_count_added (st : Settings) (persona text source : str) (w : World) :
  online w = true ->
  valid_name (RAGPipeline_collection_name persona None) = true ->
  splitter (chunk_size st) (chunk_overlap st) text ≠ [] ->
  ∃ n s',
    add_text (B := disk_backend valid_name distance splitter) text source
      (RAGPipeline_init st persona None, w) = (Ok n, s')
    ∧ get_collection_stats s'
      = (Ok {| stats_persona := persona;
               stats_collection_name := RAGPipeline_collection_name persona None;
               document_count := len (default [] (stored w (pipeline_store st persona))) + n |},
         s')
    ∧ (∀ other,
         RAGPipeline_collection_name other None = RAGPipeline_collection_name persona None →
         (get_collection_stats (B := disk_backend valid_name distance splitter)
            (RAGPipeline_init st other None, s'.2)).1
         = Ok {| stats_persona := other;
                 stats_collection_name := RAGPipeline_collection_name persona None;
                 document_count :=
                   len (default [] (stored w (pipeline_store st persona))) + n |}).
Proof.
  intros Hon Hname Hchunks.
  destruct (disk_add_text_run valid_name distance splitter st persona text source w
              Hon Hname Hchunks)
    as (w' & Hadd & Hst & _ & _ & Hon').
  eexists _, _. split; [exact Hadd|].
  assert (Hlen : ∀ docs chunks,
            len (docs ++ chunk_documents source persona chunks) = len docs + len chunks).
  { intros docs chunks. unfold len, chunk_documents.
    rewrite length_app, length_imap. lia. }
  split.
  - rewrite (disk_stats_opened st persona w' _ Hon' Hst). by rewrite Hlen.
  - intros other Hkey. cbn [snd].
    rewrite (disk_stats_new st other w' Hon') by (by rewrite Hkey).
    unfold pipeline_store. rewrite Hkey. fold (pipeline_store st persona).
    rewrite Hst. simpl default. by rewrite Hlen.
Qed.
End DiskStats.

(** ** The registry on the disk *)

Lemma path_join_longer (p : Path) (name : str) : path_join p name ≠ p.
Proof.
  unfold path_join. intros H. apply (f_equal length) in H.
  rewrite !length_app in H. simpl in H. lia.
Qed.

Lemma elem_of_map_keys (db : gmap str (list Document)) (name : str) :
  name ∈ map fst (map_to_list db) ↔ is_Some (db !! name).
Proof.
  rewrite list_elem_of_fmap. split.
  - intros ([k docs] & -> & Hin). apply elem_of_map_to_list in Hin. by exists docs.
  - intros [docs Hdocs]. exists (name, docs). split; [done|]. by apply elem_of_map_to_list.
Qed.

Section DiskRegistry.

Variable valid_name : str -> bool.
Variable distance : str -> str -> Z.
Variable splitter : Z -> Z -> str -> list str.

(** What [persona_exists] answers on a disk that can be reached. *)
Lemma disk_persona_exists (st : Settings) (persona : str) (w : World) :
  online w = true ->
  (persona_exists (B := disk_backend valid_name distance splitter) st persona w).1
  = Ok (bool_decide (is_Some (stored w (registry_store st persona)))).
Proof.
  intros Hon.
  destruct (disk_client_run w (get_chroma_path st) Hon) as (w1 & Hc & Hon1 & _ & Hdb1 & _).
  unfold persona_exists, try_except.
  unfold mbind at 1, M_bind at 1.
  change (PersistentClient (Backend := disk_backend valid_name distance splitter))
    with disk_PersistentClient.
  rewrite Hc. unfold mbind, M_bind, mret, M_ret.
  change (list_collections (Backend := disk_backend valid_name distance splitter))
    with disk_list_collections.
  unfold disk_list_collections, on_disk. rewrite Hon1, Hdb1. cbn [fst].
  f_equal. apply bool_decide_ext. rewrite elem_of_map_keys.
  unfold stored, registry_store. cbn [fst snd].
  destruct (dbs w !! get_chroma_path st) as [db|]; simpl; [done|].
  rewrite lookup_empty. split; by intros [? ?].
Qed.

(** Deleting a persona whose collection is not at the storage root. *)
Lemma disk_delete_persona_absent (st : Settings) (persona : str) (w : World) :
  stored w (registry_store st persona) = None ->
  (delete_persona (B := disk_backend valid_name distance splitter) st persona w).1 = Ok false.
Proof.
  intros Habsent.
  unfold delete_persona, try_except, delete_persona_try, mbind, M_bind, mret, M_ret.
  simpl. unfold disk_PersistentClient, disk_delete_collection, on_disk, stored,
    registry_store in *.
  simpl in *. destruct (online w) eqn:Hon; [|done].
  destruct (dbs w !! get_chroma_path st) as [db|] eqn:Hdb; simpl in *.
  - rewrite Hon, Hdb. unfold persona_exists_collection_name in Habsent.
    unfold delete_persona_collection_name. by rewrite Habsent.
  - rewrite Hon, lookup_insert_eq, lookup_empty. done.
Qed.

(** X23. On a disk that can be reached [persona_exists] answers whether
    the database at the storage root holds the collection of the name; a
    pipeline keeps its collection in a database of its own one level below,
    so no [add_text], for whatever persona, changes the answer for any
    name. *)
Theorem persona_exists_blind_to_adds (st : Settings) (w : World) :
  online w = true ->
  (∀ name,
     (persona_exists (B := disk_backend valid_name distance splitter) st name w).1
     = Ok (bool_decide (is_Some (stored w (registry_store st name)))))
  ∧ (∀ persona text source name,
       (persona_exists (B := disk_backend valid_name distance splitter) st name
          (add_text (B := disk_backend valid_name distance splitter) text source
             (RAGPipeline_init st persona None, w)).2.2).1
       = (persona_exists (B := disk_backend valid_name distance splitter) st name w).1).
Proof.
  intros Hon. split; [intros name; by apply disk_persona_exists|].
  intros persona text source name.
  destruct (disk_add_text_frame valid_name distance splitter st persona text source w Hon)
    as (r & p' & w' & Hadd & Hon' & Hother & _).
  rewrite Hadd. cbn [snd]. rewrite !disk_persona_exists by done.
  unfold stored, registry_store. cbn [fst snd].
  rewrite Hother; [done|]. unfold pipeline_store. cbn [fst].
  intros H. symmetry in H. by apply path_join_longer in H.
Qed.

(** What a [delete_persona] that returns true has done. *)
Lemma disk_delete_persona_done (st : Settings) (persona : str) (w w' : World) :
  delete_persona (B := disk_backend valid_name distance splitter) st persona w = (Ok true, w') ->
  online w' = true
  ∧ is_Some (stored w (registry_store st persona))
  ∧ stored w' (registry_store st persona) = None
  ∧ (persona_json_path st persona ∉ files w')
  ∧ (∀ c', c' ≠ get_chroma_path st → dbs w' !! c' = dbs w !! c')
  ∧ (∀ f, f ≠ persona_json_path st persona → f ∈ files w → f ∈ files w').
Proof.
  unfold delete_persona, try_except, delete_persona_try, mbind, M_bind, mret, M_ret.
  cbn [PersistentClient delete_collection path_exists path_unlink disk_backend].
  unfold disk_PersistentClient at 1, on_disk at 1.
  destruct (online w) eqn:Hon; [|done].
  unfold stored, registry_store. cbn [fst snd].
  change (persona_exists_collection_name persona)
    with (delete_persona_collection_name persona).
  set (root := get_chroma_path st). set (key := delete_persona_collection_name persona).
  set (file := persona_json_path st persona).
  assert (Hgo : ∀ w1 : World,
            online w1 = true → dbs w1 !! root = Some (default ∅ (dbs w !! root)) →
            files w1 = files w → (∀ c', c' ≠ root → dbs w1 !! c' = dbs w !! c') →
            (let (r, s') :=
               let (r, s') := disk_delete_collection root key w1 in
               match r with
               | Ok _ =>
                   let (r0, s'0) := disk_path_exists file s' in
                   match r0 with
                   | Ok a0 =>
                       let (r1, s'1) :=
                         (if a0 then disk_path_unlink file
                          else λ s : World, (Ok (), s)) s'0 in
                       match r1 with
                       | Ok _ => (Ok true, s'1)
                       | Raise e => (Raise e, s'1)
                       end
                   | Raise e => (Raise e, s'0)
                   end
               | Raise e => (Raise e, s')
               end in
             match r with
             | Ok a => (Ok a, s')
             | Raise _ => (Ok false, s')
             end) = (Ok true, w') →
            online w' = true
            ∧ is_Some ((dbs w !! root) ≫= (.!! key))
            ∧ (dbs w' !! root) ≫= (.!! key) = None
            ∧ (file ∉ files w')
            ∧ (∀ c', c' ≠ root → dbs w' !! c' = dbs w !! c')
            ∧ (∀ f, f ≠ file → f ∈ files w → f ∈ files w')).
  { intros w1 Hon1 Hdb1 Hf1 Ho1.
    unfold disk_delete_collection, on_disk at 1. rewrite Hon1, Hdb1.
    destruct (default ∅ (dbs w !! root) !! key) as [docs|] eqn:Hkey; [|done].
    unfold disk_path_exists, on_disk at 1. cbn [online set_dbs].
    rewrite Hon1. cbn [files set_dbs].
    assert (Hwas : is_Some ((dbs w !! root) ≫= (.!! key))).
    { destruct (dbs w !! root) as [db|]; simpl in *; [by exists docs|].
      by rewrite lookup_empty in Hkey. }
    destruct (bool_decide (file ∈ files w1)) eqn:Hfile; cbn [orb].
    - unfold disk_path_unlink, on_disk. cbn [online set_dbs files]. rewrite Hon1, Hfile.
      intros [= <-]. cbn [online dbs files set_dbs set_files].
      rewrite lookup_insert_eq. simpl. rewrite lookup_delete_eq.
      split; [done|]. split; [done|]. split; [done|]. split; [|split].
      + intros [_ Hn]%elem_of_difference. by apply Hn, elem_of_singleton.
      + intros c' Hc'. rewrite lookup_insert_ne by done. by apply Ho1.
      + intros f Hf Hin. rewrite Hf1. apply elem_of_difference. split; [done|].
        by intros ?%elem_of_singleton.
    - destruct (is_dir _ file) eqn:Hdir.
      + unfold disk_path_unlink, on_disk. cbn [online set_dbs files]. rewrite Hon1, Hfile.
        done.
      + intros [= <-]. cbn [online dbs files set_dbs].
        rewrite lookup_insert_eq. simpl. rewrite lookup_delete_eq.
        split; [done|]. split; [done|]. split; [done|]. split; [|split].
        * by apply bool_decide_eq_false in Hfile.
        * intros c' Hc'. rewrite lookup_insert_ne by done. by apply Ho1.
        * intros f _ Hin. by rewrite Hf1. }
  destruct (dbs w !! root) as [db|] eqn:Hdb.
  - apply Hgo; try done; by rewrite ?Hdb.
  - apply Hgo; try done; cbn [dbs set_dbs]; try (by rewrite lookup_insert_eq);
      intros c' Hc'; by rewrite lookup_insert_ne.
Qed.

(** The answer of [persona_exists] once the collection is gone. *)
Lemma disk_persona_exists_gone (st : Settings) (persona other : str) (w : World) :
  online w = true ->
  stored w (registry_store st persona) = None ->
  persona_exists_collection_name other = persona_exists_collection_name persona ->
  (persona_exists (B := disk_backend valid_name distance splitter) st other w).1 = Ok false.
Proof.
  intros Hon Hgone Hkey. rewrite disk_persona_exists by done.
  unfold registry_store. rewrite Hkey. fold (registry_store st persona).
  rewrite Hgone. apply f_equal, bool_decide_eq_false. by intros [? ?].
Qed.

(** X24. When [delete_persona] returns true on the disk, the collection
    was in the database at the storage root and is gone from it, the metadata
    file of the name is gone, no database of a pipeline was touched, and
    asking again gives false: for [persona_exists] under every name with the
    same collection key, and for a second [delete_persona]. *)
Theorem delete_persona_removes (st : Settings) (persona : str) (w w' : World) :
  delete_persona (B := disk_backend valid_name distance splitter) st persona w = (Ok true, w') ->
  is_Some (stored w (registry_store st persona))
  ∧ stored w' (registry_store st persona) = None
  ∧ (persona_json_path st persona ∉ files w')
  ∧ (∀ c', c' ≠ get_chroma_path st → dbs w' !! c' = dbs w !! c')
  ∧ (∀ other,
       persona_exists_collection_name other = persona_exists_collection_name persona →
       (persona_exists (B := disk_backend valid_name distance splitter) st other w').1 = Ok false)
  ∧ (delete_persona (B := disk_backend valid_name distance splitter) st persona w').1 = Ok false.
Proof.
  intros Hrun.
  destruct (disk_delete_persona_done st persona w w' Hrun)
    as (Hon' & Hwas & Hgone & Hfile & Hother & _).
  repeat split; try done.
  - intros other Hkey. by apply (disk_persona_exists_gone st persona).
  - by apply disk_delete_persona_absent.
Qed.

(** X22. Two personas whose names differ only in letter case have the same
    collection key at every site (the pipeline, [delete_persona] and
    [persona_exists]), but each has a metadata path of its own: the path
    [delete_persona] removes is the one the chatbot of that very name reads
    and writes, never the path of the other. So when [delete_persona] of one
    returns true on the disk (where file names that differ in letter case are
    different files), [persona_exists] is false for the other as well, the
    file of the one is gone, and the file of the other, if it was there, is
    still there. *)
Theorem case_variants_share_collection_not_file (st : Settings) (a b : str) :
  str_lower a = str_lower b ->
  a ≠ b ->
  delete_persona_collection_name a = RAGPipeline_collection_name b None
  ∧ persona_exists_collection_name a = RAGPipeline_collection_name b None
  ∧ persona_json_path st a = chatbot._get_persona_path st a
  ∧ persona_json_path st a ≠ chatbot._get_persona_path st b
  ∧ (∀ w w',
       delete_persona (B := disk_backend valid_name distance splitter) st a w = (Ok true, w') →
       (persona_exists (B := disk_backend valid_name distance splitter) st b w').1 = Ok false
       ∧ (chatbot._get_persona_path st a ∉ files w')
       ∧ (chatbot._get_persona_path st b ∈ files w →
          chatbot._get_persona_path st b ∈ files w')).
Proof.
  intros Hlower Hne.
  assert (Hkey : delete_persona_collection_name a = RAGPipeline_collection_name b None).
  { unfold delete_persona_collection_name, RAGPipeline_collection_name.
    by rewrite !str_lower_replace_space, Hlower. }
  assert (Hpath : persona_json_path st a ≠ chatbot._get_persona_path st b).
  { unfold persona_json_path, chatbot._get_persona_path, path_join. cbv zeta.
    rewrite !str_replace_space. intros H.
    apply app_inv_head, app_inv_head, app_inv_tail in H.
    by apply Hne, map_underscore_tolower_inj. }
  split; [done|]. split; [done|]. split; [done|]. split; [done|].
  intros w w' Hrun.
  destruct (disk_delete_persona_done st a w w' Hrun)
    as (Hon' & _ & Hgone & Hfile & _ & Hkeep).
  split; [|split; [done|]].
  - apply (disk_persona_exists_gone st a); [done | done | by symmetry].
  - apply Hkeep. by intros H.
Qed.

End DiskRegistry.

(** ** What opening a store leaves on the disk *)

Lemma strip_prefix_app (pre s : str) : strip_prefix pre (pre ++ s) = Some s.
Proof.
  induction pre as [|c pre IH]; [done|]. simpl. by rewrite decide_True.
Qed.

Lemma first_component_whole (s : str) : "/"%char ∉ s -> first_component s = s.
Proof.
  induction s as [|c s IH]; [done|]. intros Hs. simpl.
  rewrite decide_False by (intros ->; apply Hs; left).
  f_equal. apply IH. intros Hin. apply Hs. by right.
Qed.

Lemma entry_of_child (root name : str) :
  name ≠ [] -> "/"%char ∉ name -> entry_of root (path_join root name) = Some name.
Proof.
  intros Hne Hslash. unfold entry_of, path_join.
  rewrite app_assoc, strip_prefix_app. simpl.
  destruct name as [|c name]; [done|]. by rewrite first_component_whole.
Qed.

Lemma is_dir_database (w : World) (p : Path) : is_Some (dbs w !! p) -> is_dir w p = true.
Proof.
  intros Hp. unfold is_dir. apply existsb_exists. exists p. split.
  - by apply list_elem_of_In, elem_of_elements, elem_of_dom.
  - by rewrite bool_decide_eq_true_2.
Qed.

Lemma is_dir_parent (w : World) (root name : str) :
  name ≠ [] -> "/"%char ∉ name ->
  is_Some (dbs w !! path_join root name) -> is_dir w root = true.
Proof.
  intros Hne Hslash Hp. unfold is_dir. apply existsb_exists. exists (path_join root name).
  split.
  - by apply list_elem_of_In, elem_of_elements, elem_of_dom.
  - rewrite entry_of_child by done. rewrite (bool_decide_eq_true_2 (is_Some (Some name))); [|by eexists].
    apply orb_true_r.
Qed.

Lemma tolower_slash (c : ascii) : tolower c = "/"%char -> c = "/"%char.
Proof. destruct c as [[] [] [] [] [] [] [] []]; by vm_compute. Qed.

Lemma collection_name_no_slash (persona : str) :
  "/"%char ∉ persona -> "/"%char ∉ RAGPipeline_collection_name persona None.
Proof.
  intros Hp. unfold RAGPipeline_collection_name. rewrite str_replace_space.
  rewrite elem_of_app. intros [Hin|Hin].
  - by vm_compute in Hin; repeat (apply elem_of_cons in Hin as [Hin|Hin]; [done|]);
      apply elem_of_nil in Hin.
  - unfold str_lower in Hin. rewrite <- list_fmap_compose in Hin.
    apply list_elem_of_fmap in Hin as (c & Hc & Hin). apply Hp.
    simpl in Hc. symmetry in Hc. apply tolower_slash in Hc.
    unfold underscore in Hc. destruct (decide (c = " "%char)); [done|]. by subst.
Qed.

Section DiskListing.

Variable valid_name : str -> bool.
Variable distance : str -> str -> Z.
Variable splitter : Z -> Z -> str -> list str.

(** How [get_collection_stats] runs through a new pipeline. *)
Lemma disk_stats_new_run (st : Settings) (persona : str) (w : World) :
  online w = true ->
  valid_name (RAGPipeline_collection_name persona None) = true ->
  ∃ w',
    get_collection_stats (B := disk_backend valid_name distance splitter)
      (RAGPipeline_init st persona None, w)
    = (Ok {| stats_persona := persona;
             stats_collection_name := RAGPipeline_collection_name persona None;
             document_count := len (default [] (stored w (pipeline_store st persona))) |},
       (opened valid_name distance splitter st persona, w'))
    ∧ online w' = true
    ∧ stored w' (pipeline_store st persona)
      = Some (default [] (stored w (pipeline_store st persona)))
    ∧ (∀ c', c' ≠ (pipeline_store st persona).1 → dbs w' !! c' = dbs w !! c')
    ∧ files w' = files w.
Proof.
  intros Hon Hname.
  destruct (disk_vectorstore_opened valid_name distance splitter st persona w Hon Hname)
    as (w1 & Hv & Hon1 & Hst1 & Ho1 & Hf1).
  exists w1. split; [|done].
  unfold get_collection_stats, try_except.
  unfold mbind at 1, M_bind at 1, self. cbn [fst snd].
  unfold mbind at 1, M_bind at 1. rewrite Hv.
  unfold mbind at 1, M_bind at 1. rewrite call_run. cbn [fst snd].
  change (collection_count (Backend := disk_backend valid_name distance splitter)) with disk_count.
  by rewrite (disk_count_run w1 _ _ Hon1 Hst1).
Qed.

(** How [get_collection_stats] runs through a new pipeline when the store
    refuses the name: the handler answers, after the client has made the
    directory of the database. *)
Lemma disk_stats_refused (st : Settings) (persona : str) (w : World) :
  online w = true ->
  valid_name (RAGPipeline_collection_name persona None) = false ->
  ∃ p' w',
    get_collection_stats (B := disk_backend valid_name distance splitter)
      (RAGPipeline_init st persona None, w)
    = (Ok {| stats_persona := persona;
             stats_collection_name := RAGPipeline_collection_name persona None;
             document_count := 0 |},
       (p', w'))
    ∧ online w' = true
    ∧ is_Some (dbs w' !! (pipeline_store st persona).1)
    ∧ (∀ c', c' ≠ (pipeline_store st persona).1 → dbs w' !! c' = dbs w !! c')
    ∧ files w' = files w.
Proof.
  intros Hon Hname.
  destruct (disk_vectorstore_refused valid_name distance splitter st persona w Hon Hname)
    as (p' & w1 & Hv & Hfacts).
  exists p', w1. split; [|done].
  unfold get_collection_stats, try_except.
  unfold mbind at 1, M_bind at 1, self. cbn [fst snd].
  unfold mbind at 1, M_bind at 1. rewrite Hv. done.
Qed.

(** Listing a disk where the database of a pipeline is. *)
Lemma disk_list_personas_database (st : Settings) (w : World) (name : str) :
  online w = true ->
  name ≠ [] -> "/"%char ∉ name ->
  startswith (lit "persona_") name = true ->
  is_Some (dbs w !! path_join (get_chroma_path st) name) ->
  ∃ names,
    list_personas (B := disk_backend valid_name distance splitter) st w = (Ok names, w)
    ∧ listed_as name ∈ names.
Proof.
  intros Hon Hne Hslash Hstart Hdb.
  unfold list_personas, mbind, M_bind, mret, M_ret.
  cbn [path_exists path_iterdir disk_backend].
  unfold disk_path_exists, disk_path_iterdir, on_disk. rewrite Hon.
  rewrite (is_dir_parent w _ name Hne Hslash Hdb), orb_true_r. cbn [negb].
  cbv beta iota. rewrite Hon.
  eexists. split; [reflexivity|].
  rewrite (fold_left_filter_map
             (fun item : str * bool => item.2 && startswith (lit "persona_") item.1)
             (fun item => listed_as item.1)).
  rewrite app_nil_l. apply list_elem_of_fmap.
  exists (name, is_dir w (path_join (get_chroma_path st) name)). split; [done|].
  apply list_elem_of_In, filter_In. split.
  - apply list_elem_of_In, list_elem_of_fmap. exists name. split; [done|].
    apply elem_of_remove_dups, list_elem_of_omap.
    exists (path_join (get_chroma_path st) name). split.
    + apply elem_of_app. left. by apply elem_of_elements, elem_of_dom.
    + by apply entry_of_child.
  - cbn [fst snd]. by rewrite (is_dir_database w _ Hdb), Hstart.
Qed.

(** X25. Asking is creating: on a disk that can be reached, reading the
    statistics of a persona through a new pipeline (nothing was ever added)
    reports no document, and leaves the database of the persona on the disk,
    where [list_personas] then lists it, yet [persona_exists] answers as
    before. The name must hold no slash. *)
Theorem stats_of_unknown_persona_lists_it (st : Settings) (persona : str) (w : World) :
  online w = true ->
  "/"%char ∉ persona ->
  stored w (pipeline_store st persona) = None ->
  ∃ stats p' w' names,
    get_collection_stats (B := disk_backend valid_name distance splitter)
      (RAGPipeline_init st persona None, w) = (Ok stats, (p', w'))
    ∧ document_count stats = 0
    ∧ list_personas (B := disk_backend valid_name distance splitter) st w' = (Ok names, w')
    ∧ listed_as (RAGPipeline_collection_name persona None) ∈ names
    ∧ (∀ name,
         (persona_exists (B := disk_backend valid_name distance splitter) st name w').1
         = (persona_exists (B := disk_backend valid_name distance splitter) st name w).1).
Proof.
  intros Hon Hslash Hnew.
  assert (Hrun : ∃ p' w',
            get_collection_stats (B := disk_backend valid_name distance splitter)
              (RAGPipeline_init st persona None, w)
            = (Ok {| stats_persona := persona;
                     stats_collection_name := RAGPipeline_collection_name persona None;
                     document_count := 0 |},
               (p', w'))
            ∧ online w' = true
            ∧ is_Some (dbs w' !! (pipeline_store st persona).1)
            ∧ (∀ c', c' ≠ (pipeline_store st persona).1 → dbs w' !! c' = dbs w !! c')).
  { destruct (valid_name (RAGPipeline_collection_name persona None)) eqn:Hname.
    - destruct (disk_stats_new_run st persona w Hon Hname)
        as (w' & Hrun & Hon' & Hst & Hother & _).
      rewrite Hnew in Hrun. eexists _, w'. split; [exact Hrun|].
      split; [done|]. split; [|done].
      unfold stored in Hst. destruct (dbs w' !! _) as [db|]; [by eexists | done].
    - destruct (disk_stats_refused st persona w Hon Hname)
        as (p' & w' & Hrun & Hon' & Hdb & Hother & _).
      by exists p', w'. }
  destruct Hrun as (p' & w' & Hrun & Hon' & Hdb & Hother).
  destruct (disk_list_personas_database st w' (RAGPipeline_collection_name persona None)
              Hon' ltac:(done) (collection_name_no_slash persona Hslash) eq_refl Hdb)
    as (names & Hlist & Hin).
  eexists _, p', w', names. split; [exact Hrun|]. split; [done|].
  split; [done|]. split; [done|].
  intros name. rewrite !(disk_persona_exists valid_name distance splitter) by done.
  unfold stored, registry_store. cbn [fst snd].
  rewrite Hother; [done|]. unfold pipeline_store. cbn [fst].
  intros H. symmetry in H. by apply path_join_longer in H.
Qed.

End DiskListing.

(** ** The properties above, on small disks *)

Lemma vectorstore_opened_once_witness :
  (get_vectorstore (B := simple_disk)
     (RAGPipeline_init default_settings (lit "Alice") None, empty_world)).1
  = Ok (pipeline_store default_settings (lit "Alice"))
  ∧ get_vectorstore (B := simple_disk)
      (get_vectorstore (B := simple_disk)
         (RAGPipeline_init default_settings (lit "Alice") None, empty_world)).2
    = get_vectorstore (B := simple_disk)
        (RAGPipeline_init default_settings (lit "Alice") None, empty_world).
Proof.
  assert (Hv : (get_vectorstore (B := simple_disk)
                  (RAGPipeline_init default_settings (lit "Alice") None, empty_world)).1
               = Ok (pipeline_store default_settings (lit "Alice")))
    by (vm_compute; reflexivity).
  destruct (get_vectorstore (B := simple_disk)
              (RAGPipeline_init default_settings (lit "Alice") None, empty_world))
    as [r [p' w']] eqn:Hrun.
  cbn [fst] in Hv. subst r. split; [reflexivity|]. cbn [snd].
  apply (vectorstore_opened_once (B := simple_disk)
           (RAGPipeline_init default_settings (lit "Alice") None) p' empty_world w'
           (pipeline_store default_settings (lit "Alice")) Hrun).
Defined.

Lemma list_personas_names_witness :
  (list_personas (B := simple_disk) default_settings shelf).1 = Ok [lit "my notes"]
  ∧ lit "my_notes" ∉ [lit "my notes"].
Proof.
  assert (Hnames : (list_personas (B := simple_disk) default_settings shelf).1
                   = Ok [lit "my notes"]) by (vm_compute; reflexivity).
  destruct (list_personas (B := simple_disk) default_settings shelf) as [r w'] eqn:Hrun.
  cbn [fst] in Hnames. subst r. split; [reflexivity|].
  apply (list_personas_names (B := simple_disk) default_settings shelf w' [lit "my notes"] Hrun).
  apply (bool_decide_unpack _). vm_compute. exact I.
Defined.

Lemma collection_stats_count_added_witness :
  online empty_world = true
  ∧ chroma_name_rule (RAGPipeline_collection_name (lit "Alice") None) = true
  ∧ whole_text (chunk_size default_settings) (chunk_overlap default_settings)
      (lit "hello world") ≠ []
  ∧ ∃ n s',
      add_text (B := simple_disk) (lit "hello world") (lit "manual")
        (RAGPipeline_init default_settings (lit "Alice") None, empty_world) = (Ok n, s')
      ∧ get_collection_stats s'
        = (Ok {| stats_persona := lit "Alice";
                 stats_collection_name := RAGPipeline_collection_name (lit "Alice") None;
                 document_count :=
                   len (default []
                          (stored empty_world (pipeline_store default_settings (lit "Alice"))))
                   + n |},
           s').
Proof.
  assert (Hname : chroma_name_rule (RAGPipeline_collection_name (lit "Alice") None) = true)
    by (vm_compute; reflexivity).
  assert (Hchunks : whole_text (chunk_size default_settings) (chunk_overlap default_settings)
                      (lit "hello world") ≠ []) by discriminate.
  split; [reflexivity|]. split; [exact Hname|]. split; [exact Hchunks|].
  destruct (collection_stats_count_added chroma_name_rule length_distance whole_text
              default_settings (lit "Alice") (lit "hello world") (lit "manual") empty_world
              eq_refl Hname Hchunks)
    as (n & s' & Hadd & Hstats & _).
  exists n, s'. split; [exact Hadd | exact Hstats].
Defined.

Lemma persona_exists_blind_to_adds_witness :
  online shelf = true
  ∧ (persona_exists (B := simple_disk) default_settings (lit "Bob")
       (add_text (B := simple_disk) (lit "hello world") (lit "manual")
          (RAGPipeline_init default_settings (lit "Bob") None, shelf)).2.2).1
    = (persona_exists (B := simple_disk) default_settings (lit "Bob") shelf).1.
Proof.
  split; [reflexivity|].
  apply (persona_exists_blind_to_adds chroma_name_rule length_distance whole_text default_settings shelf eq_refl).
Defined.

Lemma delete_persona_removes_witness :
  (delete_persona (B := simple_disk) default_settings (lit "alice") shelf).1 = Ok true
  ∧ (persona_exists (B := simple_disk) default_settings (lit "Alice")
       (delete_persona (B := simple_disk) default_settings (lit "alice") shelf).2).1
    = Ok false.
Proof.
  assert (Hb : (delete_persona (B := simple_disk) default_settings (lit "alice") shelf).1
               = Ok true) by (vm_compute; reflexivity).
  destruct (delete_persona (B := simple_disk) default_settings (lit "alice") shelf)
    as [r w'] eqn:Hrun.
  cbn [fst] in Hb. subst r. split; [reflexivity|]. cbn [snd].
  apply (delete_persona_removes chroma_name_rule length_distance whole_text default_settings (lit "alice")
           shelf w' Hrun).
  reflexivity.
Defined.

Lemma stats_of_unknown_persona_lists_it_witness :
  online empty_world = true
  ∧ ("/"%char ∉ lit "Bob")
  ∧ stored empty_world (pipeline_store default_settings (lit "Bob")) = None
  ∧ ∃ stats p' w' names,
      get_collection_stats (B := simple_disk)
        (RAGPipeline_init default_settings (lit "Bob") None, empty_world)
      = (Ok stats, (p', w'))
      ∧ document_count stats = 0
      ∧ list_personas (B := simple_disk) default_settings w' = (Ok names, w')
      ∧ listed_as (RAGPipeline_collection_name (lit "Bob") None) ∈ names.
Proof.
  assert (Hslash : "/"%char ∉ lit "Bob") by (apply (bool_decide_unpack _); vm_compute; exact I).
  split; [reflexivity|]. split; [exact Hslash|]. split; [reflexivity|].
  destruct (stats_of_unknown_persona_lists_it chroma_name_rule length_distance whole_text default_settings
              (lit "Bob") empty_world eq_refl Hslash eq_refl)
    as (stats & p' & w' & names & Hrun & Hcount & Hlist & Hin & _).
  exists stats, p', w', names. repeat split; assumption.
Defined.

Lemma case_variants_share_collection_not_file_witness :
  str_lower (lit "alice") = str_lower (lit "Alice")
  ∧ lit "alice" ≠ lit "Alice"
  ∧ (delete_persona (B := simple_disk) default_settings (lit "alice") shelf).1 = Ok true
  ∧ (persona_exists (B := simple_disk) default_settings (lit "Alice")
       (delete_persona (B := simple_disk) default_settings (lit "alice") shelf).2).1
    = Ok false
  ∧ persona_json_path default_settings (lit "alice")
    ≠ chatbot._get_persona_path default_settings (lit "Alice").
Proof.
  assert (Hb : (delete_persona (B := simple_disk) default_settings (lit "alice") shelf).1
               = Ok true) by (vm_compute; reflexivity).
  destruct (delete_persona (B := simple_disk) default_settings (lit "alice") shelf)
    as [r w'] eqn:Hrun.
  cbn [fst] in Hb. subst r.
  destruct (case_variants_share_collection_not_file chroma_name_rule length_distance whole_text
              default_settings (lit "alice") (lit "Alice") eq_refl ltac:(discriminate))
    as (_ & _ & _ & Hpath & Hdisk).
  split; [reflexivity|]. split; [discriminate|]. split; [reflexivity|].
  split; [|exact Hpath].
  cbn [snd]. exact (proj1 (Hdisk shelf w' Hrun)).
Defined.

(** ** Transcripts and reset *)

Section TranscriptFacts.

Context {W : Type} {B : Backend W}.

Variable read_text : Path -> M W str.
Variable stem : Path -> str.

(** X26. [add_transcript] is a check, a read and [add_text]: when the file
    is missing it raises FileNotFoundError naming the path, before the file
    is read, the text split or the store opened; when the file is there and
    can be read it does what [add_text] does with the text, under the source
    name given, or under the stem of the path when the name is absent or
    empty; and a failure of the check or of the read goes to the caller. *)
Theorem add_transcript_checks_then_adds (transcript_path : Path) (source_name : option str)
    (p : RAGPipeline) (w : W) :
  (∀ w1, path_exists transcript_path w = (Ok false, w1) →
     add_transcript read_text stem transcript_path source_name (p, w)
     = (Raise (FileNotFoundError (lit "Transcript file not found: " ++ transcript_path)),
        (p, w1)))
  ∧ (∀ w1 w2 text,
       path_exists transcript_path w = (Ok true, w1) →
       read_text transcript_path w1 = (Ok text, w2) →
       add_transcript read_text stem transcript_path source_name (p, w)
       = add_text text
           (match source_name with
            | Some (c :: name) => c :: name
            | _ => stem transcript_path
            end)
           (p, w2))
  ∧ (∀ e w1, path_exists transcript_path w = (Raise e, w1) →
       add_transcript read_text stem transcript_path source_name (p, w) = (Raise e, (p, w1)))
  ∧ (∀ e w1 w2,
       path_exists transcript_path w = (Ok true, w1) →
       read_text transcript_path w1 = (Raise e, w2) →
       add_transcript read_text stem transcript_path source_name (p, w) = (Raise e, (p, w2))).
Proof.
  unfold add_transcript.
  split; [|split; [|split]].
  - intros w1 H. unfold mbind at 1, M_bind at 1. rewrite call_run, H. done.
  - intros w1 w2 text H1 H2. unfold mbind at 1, M_bind at 1. rewrite call_run, H1.
    cbn [fst snd negb]. unfold mbind at 1, M_bind at 1. rewrite call_run, H2. done.
  - intros e w1 H. unfold mbind at 1, M_bind at 1. rewrite call_run, H. done.
  - intros e w1 w2 H1 H2. unfold mbind at 1, M_bind at 1. rewrite call_run, H1.
    cbn [fst snd negb]. unfold mbind at 1, M_bind at 1. rewrite call_run, H2. done.
Qed.

End TranscriptFacts.

Section DiskReset.

Variable valid_name : str -> bool.
Variable distance : str -> str -> Z.
Variable splitter : Z -> Z -> str -> list str.

(** X27. [reset] deletes only through the pipeline that opened the store.
    On a disk that can be reached, when the store accepts the collection name
    of the persona and the splitter cuts the text into at least one chunk,
    [add_text] succeeds; after it, [reset] on a new pipeline for the same
    persona does nothing at all, on the disk or on the object; [reset] on the
    pipeline that added deletes the collection and forgets the store, and
    the statistics read through it afterwards report no document. *)
Theorem reset_deletes_through_its_own_pipeline (st : Settings) (persona text source : str)
    (w : World) :
  online w = true ->
  valid_name (RAGPipeline_collection_name persona None) = true ->
  splitter (chunk_size st) (chunk_overlap st) text ≠ [] ->
  ∃ n p1 w1,
    add_text (B := disk_backend valid_name distance splitter) text source
      (RAGPipeline_init st persona None, w) = (Ok n, (p1, w1))
    ∧ reset (B := disk_backend valid_name distance splitter) fst (RAGPipeline_init st persona None, w1)
      = (Ok (), (RAGPipeline_init st persona None, w1))
    ∧ ∃ p2 w2,
        reset (B := disk_backend valid_name distance splitter) fst (p1, w1) = (Ok (), (p2, w2))
        ∧ _vectorstore p2 = None
        ∧ stored w2 (pipeline_store st persona) = None
        ∧ (get_collection_stats (p2, w2)).1
          = Ok {| stats_persona := persona;
                  stats_collection_name := RAGPipeline_collection_name persona None;
                  document_count := 0 |}.
Proof.
  intros Hon Hname Hchunks.
  destruct (disk_add_text_run valid_name distance splitter st persona text source w
              Hon Hname Hchunks)
    as (w1 & Hadd & Hst & _ & _ & Hon1).
  eexists _, _, w1. split; [exact Hadd|]. split; [done|].
  assert (Hdel : ∃ w2,
            disk_delete_collection (pipeline_store st persona).1
              (RAGPipeline_collection_name persona None) w1 = (Ok (), w2)
            ∧ online w2 = true
            ∧ stored w2 (pipeline_store st persona) = None).
  { unfold disk_delete_collection, on_disk. rewrite Hon1.
    unfold stored in Hst. cbn [fst snd pipeline_store] in *.
    destruct (dbs w1 !! _) as [db|] eqn:Hdb; [|done].
    unfold mbind, option_bind in Hst. rewrite Hst.
    eexists. split; [done|]. split; [done|].
    unfold stored. cbn [fst snd dbs set_dbs]. rewrite lookup_insert_eq. simpl.
    by rewrite lookup_delete_eq. }
  destruct Hdel as (w2 & Hdel & Hon2 & Hgone).
  destruct (disk_open valid_name w2 (pipeline_store st persona).1
              (pipeline_store st persona).2 (embedding_model st) Hon2 Hname)
    as (w3 & w4 & Hc & Hch & Hon4 & Hst4 & _).
  eexists _, w2. split; [|split; [|split]].
  - unfold reset, mbind, M_bind, mret, M_ret, self, set_self, call.
    simpl.
    match goal with
    | |- context [disk_delete_collection ?c ?name w1] =>
        change (disk_delete_collection c name w1)
          with (disk_delete_collection (pipeline_store st persona).1
                  (RAGPipeline_collection_name persona None) w1)
    end.
    rewrite Hdel. done.
  - done.
  - done.
  - unfold get_collection_stats, try_except, get_vectorstore, _create_vectorstore, embeddings,
      mbind, M_bind, mret, M_ret, self, set_self, call.
    simpl. simpl in Hc, Hch. rewrite Hc. simpl. rewrite Hch. simpl.
    change (stored w4 (pipeline_store st persona)
            = Some (default [] (stored w2 (pipeline_store st persona)))) in Hst4.
    rewrite Hgone in Hst4. cbn [default] in Hst4.
    match goal with
    | |- context [disk_count ?v w4] =>
        change (disk_count v w4) with (disk_count (pipeline_store st persona) w4)
    end.
    by rewrite (disk_count_run w4 _ [] Hon4 Hst4).
Qed.

End DiskReset.

Lemma reset_deletes_through_its_own_pipeline_witness :
  online empty_world = true
  ∧ chroma_name_rule (RAGPipeline_collection_name (lit "Alice") None) = true
  ∧ whole_text (chunk_size default_settings) (chunk_overlap default_settings)
      (lit "hello world") ≠ []
  ∧ ∃ n p1 w1,
      add_text (B := simple_disk) (lit "hello world") (lit "manual")
        (RAGPipeline_init default_settings (lit "Alice") None, empty_world) = (Ok n, (p1, w1))
      ∧ reset (B := simple_disk) fst (RAGPipeline_init default_settings (lit "Alice") None, w1)
        = (Ok (), (RAGPipeline_init default_settings (lit "Alice") None, w1))
      ∧ ∃ p2 w2,
          reset (B := simple_disk) fst (p1, w1) = (Ok (), (p2, w2))
          ∧ stored w2 (pipeline_store default_settings (lit "Alice")) = None.
Proof.
  assert (Hname : chroma_name_rule (RAGPipeline_collection_name (lit "Alice") None) = true)
    by (vm_compute; reflexivity).
  assert (Hchunks : whole_text (chunk_size default_settings) (chunk_overlap default_settings)
                      (lit "hello world") ≠ []) by discriminate.
  split; [reflexivity|]. split; [exact Hname|]. split; [exact Hchunks|].
  destruct (reset_deletes_through_its_own_pipeline chroma_name_rule length_distance whole_text
              default_settings (lit "Alice") (lit "hello world") (lit "manual") empty_world
              eq_refl Hname Hchunks)
    as (n & p1 & w1 & Hadd & Hnew & p2 & w2 & Hreset & _ & Hgone & _).
  exists n, p1, w1. split; [exact Hadd|]. split; [exact Hnew|].
  exists p2, w2. split; [exact Hreset | exact Hgone].
Defined.
